(** * The block syncer of polygon-edge ([syncer/syncer.go])

    A shallow embedding of the synchronisation orchestrator: the per-peer
    pull loop [bulkSyncWithPeer], the two modes [BulkSync] and [WatchSync],
    [HasSyncPeer] and [Close].

    How the Go code is read:
    - [uint64] heights are [N]; the one addition of the code
      ([localLatest+1]) wraps at [2^64];
    - the collaborators behind Go interfaces ([Blockchain],
      [SyncPeerClient]) are type classes over an abstract state, which
      [WriteBlock], [GetBlocks] and [CloseStream] may change; the theorems
      hold for every implementation;
    - a nil pointer dereference is the outcome [Panics];
    - what a [select] on the block channel and [time.After] yields is decided
      by the environment: a stream is the finite list of blocks received,
      followed by the way the wait ends (channel closed, or timer fired);
      [selects] derives such a stream from the times at which the blocks
      can be received, each pass of the loop arming a timer of its own;
    - the pointers received from the block channel are taken to be non-nil:
      a nil [*types.Block] would make [block.Number()] panic, and no stream
      of the model carries one;
    - the peer table, which the listeners keep up to date, is read as it
      stands: it does not change during one [BulkSync], and every wake-up of
      [WatchSync] comes with the table of that moment;
    - every call to a collaborator and to the block callback is appended to
      an observation log, so that "was it verified / committed / passed to
      the callback" is a statement about the log;
    - logger calls are not modelled. *)

From stdpp Require Import gmap strings list fin_maps sorting.

Open Scope N_scope.

(** ** Data *)

Abbreviation uint64 := N (only parsing).

Definition uint64_add (a b : uint64) : uint64 := (a + b) mod 2 ^ 64.

(** Go errors: [errors.New] and [fmt.Errorf] wrapping with [%w]. *)
Inductive error : Type :=
| errors_New (msg : string)
| fmt_Errorf (msg : string) (wrapped : error).

Definition errTimeout : error := errors_New "timeout awaiting block from peer".

Module types.
Record Header : Type := mkHeader { Number : uint64; Hash : N }.
Record Block : Type := mkBlock { header : Header; Transactions : list N }.
(** [func (b *Block) Number() uint64] *)
Definition Block_Number (b : Block) : uint64 := Number (header b).
End types.

Abbreviation peer_ID := string (only parsing).

Record NoForkPeer : Type := mkPeer { ID : peer_ID; Number : uint64 }.

(** [time.Duration] *)
Abbreviation Duration := Z (only parsing).

(** How the wait of the [select] in the pull loop ends once no further block
    is received: [blockCh] was closed, or [time.After] fired first. *)
Inductive StreamEnd : Type := ChannelClosed | TimerFired.

Record BlockStream : Type := mkStream {
  delivered : list types.Block;
  stream_end : StreamEnd
}.

(** *** The select, in time

    Every pass of the [for] loop evaluates [time.After(s.blockTimeout)] anew
    when it enters the [select]: the timer of a pass runs from the moment the
    pass starts waiting, not from the last block that was applied. *)

(** A block on its way: the time from which it can be received from
    [blockCh], and the time the loop body spends on it once received, before
    it is back at the [select]. *)
Record Arrival : Type := mkArrival {
  arrivesAt : Duration;
  arrived : types.Block;
  busy : Duration
}.

(** When the sender closes [blockCh], if ever. *)
Inductive ChannelEnd : Type := ClosedAt (t : Duration) | NeverClosed.

(** What the successive [select]s yield when the loop enters the first one at
    time [entered] and keeps going: a block that can be received before the
    timer of the pass fires is received, at once when it is already there,
    and the next [select] is entered when the body is done with it; otherwise
    the timer fires. The channel hands out the blocks sent before it reports
    that it is closed. [blockTimeout] is positive. A block ready at the very
    instant the timer fires could be taken by either case of the [select];
    it is read as too late. *)
Fixpoint selects (blockTimeout entered : Duration) (arrivals : list Arrival)
    (closing : ChannelEnd) : BlockStream :=
  match arrivals with
  | [] =>
      match closing with
      | ClosedAt t =>
          if (t <? entered + blockTimeout)%Z then mkStream [] ChannelClosed
          else mkStream [] TimerFired
      | NeverClosed => mkStream [] TimerFired
      end
  | a :: later =>
      if (arrivesAt a <? entered + blockTimeout)%Z then
        let next := selects blockTimeout (Z.max entered (arrivesAt a) + busy a)
                            later closing in
        mkStream (arrived a :: delivered next) (stream_end next)
      else mkStream [] TimerFired
  end.

(** A function either returns or dereferences a nil pointer. *)
Inductive Outcome (A : Type) : Type :=
| Returns (a : A)
| Panics.
Arguments Returns {A} a.
Arguments Panics {A}.

(** ** Collaborators *)

(** The part of the [Blockchain] interface the syncer calls. [Header] is nil
    ([None]) when the head is unknown. *)
Class Blockchain (C : Type) : Type := {
  Header : C → option types.Header;
  VerifyFinalizedBlock : C → types.Block → option error;
  WriteBlock : C → types.Block → C * option error
}.

(** The part of the [SyncPeerClient] interface the syncer calls. [GetBlocks]
    returns an error or the channel, read here as the stream it will carry. *)
Class SyncPeerClient (K : Type) : Type := {
  GetBlocks : K → peer_ID → uint64 → Duration → K * (error + BlockStream);
  CloseStream : K → peer_ID → K * option error
}.

(** Observation log. *)
Inductive Call : Type :=
| CallStartProgression (startingBlock : uint64)
| CallSubscribeEvents
| CallStopProgression
| CallUpdateHighestProgression (target : uint64)
| CallGetBlocks (peerID : peer_ID) (from : uint64) (timeout : Duration)
| CallCloseStream (peerID : peer_ID)
| CallVerifyFinalizedBlock (block : types.Block)
| CallWriteBlock (block : types.Block)
| CallNewBlockCallback (block : types.Block) (result : bool).

(** The block callback, a Go closure from a block to a bool, whose answer may depend on what
    happened before; it is given the log. *)
Abbreviation Callback := (list Call → types.Block → bool) (only parsing).

(** ** The peer table *)

(** Modelled from the spec: [PeerMap] and its method [BestPeer] live in a file
    of the package that is not among the sources. Section 3 of the
    specification: a mapping from peer identity to the last known status, and
    "the candidate is the entry with the maximum number among entries whose
    peerID is not in SkipSet", "no candidate" if none is left; ties are
    broken by the iteration order of the map. The skip list is the
    [map[peer.ID]bool] of the callers; a missing key reads [false]. *)
Abbreviation PeerMap := (gmap peer_ID NoForkPeer) (only parsing).
Abbreviation SkipList := (gmap peer_ID bool) (only parsing).

Definition skipped (skipMap : SkipList) (id : peer_ID) : bool :=
  default false (skipMap !! id).

Definition candidates (m : PeerMap) (skipMap : SkipList) : list NoForkPeer :=
  filter (λ p, skipped skipMap (ID p) = false) (map_to_list m).*2.

Definition pickBetter (best : option NoForkPeer) (p : NoForkPeer)
  : option NoForkPeer :=
  match best with
  | None => Some p
  | Some b => if Number b <? Number p then Some p else Some b
  end.

Definition BestPeer (m : PeerMap) (skipMap : SkipList) : option NoForkPeer :=
  foldl pickBetter None (candidates m skipMap).

(** [Put] of the spec: upsert by peer identity. *)
Definition Put (ps : list NoForkPeer) (m : PeerMap) : PeerMap :=
  foldl (λ acc p, <[ID p := p]> acc) m ps.

(** ** The syncer *)

Section Syncer.
Context {C K : Type} `{!Blockchain C} `{!SyncPeerClient K}.

(** The fields of [struct syncer] that the modelled functions read, and the
    observation log. *)
Record syncer : Type := mkSyncer {
  blockchain : C;
  peerMap : PeerMap;
  syncPeerClient : K;
  blockTimeout : Duration;
  calls : list Call
}.

Definition record (c : Call) (s : syncer) : syncer :=
  mkSyncer (blockchain s) (peerMap s) (syncPeerClient s) (blockTimeout s)
           (calls s ++ [c]).

Definition set_blockchain (c : C) (s : syncer) : syncer :=
  mkSyncer c (peerMap s) (syncPeerClient s) (blockTimeout s) (calls s).

Definition set_syncPeerClient (k : K) (s : syncer) : syncer :=
  mkSyncer (blockchain s) (peerMap s) k (blockTimeout s) (calls s).

Definition set_peerMap (m : PeerMap) (s : syncer) : syncer :=
  mkSyncer (blockchain s) m (syncPeerClient s) (blockTimeout s) (calls s).

(** *** bulkSyncWithPeer *)

(** What [bulkSyncWithPeer] returns: [(uint64, bool, error)]. *)
Abbreviation PullResult := (uint64 * bool * option error)%type (only parsing).

(** The [for { select { ... } }] of [bulkSyncWithPeer], on the blocks still
    to come from [blockCh] and the way the stream ends. *)
Fixpoint pullLoop (newBlockCallback : Callback) (s : syncer)
    (lastReceivedNumber : uint64) (shouldTerminate : bool)
    (blockCh : list types.Block) (ending : StreamEnd)
  : syncer * PullResult :=
  match blockCh with
  | [] =>
      match ending with
      | ChannelClosed => (s, (lastReceivedNumber, shouldTerminate, None))
      | TimerFired => (s, (lastReceivedNumber, shouldTerminate, Some errTimeout))
      end
  | block :: rest =>
      if types.Block_Number block =? 0 then
        (* safe check: continue *)
        pullLoop newBlockCallback s lastReceivedNumber shouldTerminate rest ending
      else
        let s1 := record (CallVerifyFinalizedBlock block) s in
        match VerifyFinalizedBlock (blockchain s1) block with
        | Some err =>
            (s1, (lastReceivedNumber, false,
                  Some (fmt_Errorf "unable to verify block, %w" err)))
        | None =>
            let '(c', werr) := WriteBlock (blockchain s1) block in
            let s2 := record (CallWriteBlock block) (set_blockchain c' s1) in
            match werr with
            | Some err =>
                (s2, (lastReceivedNumber, false,
                      Some (fmt_Errorf "failed to write block while bulk syncing: %w" err)))
            | None =>
                let result := newBlockCallback (calls s2) block in
                let s3 := record (CallNewBlockCallback block result) s2 in
                pullLoop newBlockCallback s3 (types.Block_Number block) result
                         rest ending
            end
        end
  end.

Definition bulkSyncWithPeer (s : syncer) (peerID : peer_ID)
    (newBlockCallback : Callback) : syncer * Outcome PullResult :=
  match Header (blockchain s) with
  | None => (s, Panics)
  | Some hd =>
      let localLatest := types.Number hd in
      let from := uint64_add localLatest 1 in
      let '(k1, opened) :=
        GetBlocks (syncPeerClient s) peerID from (blockTimeout s) in
      let s1 := record (CallGetBlocks peerID from (blockTimeout s))
                       (set_syncPeerClient k1 s) in
      match opened with
      | inl err => (s1, Returns (0, false, Some err))
      | inr blockCh =>
          let '(s2, result) :=
            pullLoop newBlockCallback s1 0 false
                     (delivered blockCh) (stream_end blockCh) in
          (* deferred: CloseStream, its error only logged *)
          let '(k2, _) := CloseStream (syncPeerClient s2) peerID in
          (record (CallCloseStream peerID) (set_syncPeerClient k2 s2),
           Returns result)
      end
  end.

(** *** HasSyncPeer *)

(** [bestPeer != nil && bestPeer.Number > header.Number]: [&&] evaluates its
    right operand, which dereferences [header], only when the left one holds.
    [s.peerMap] is set by [NewSyncer] and is never nil, so the guard on it is
    not taken. [BestPeer(nil)] reads the nil map as an empty skip list. *)
Definition HasSyncPeer (s : syncer) : Outcome bool :=
  let bestPeer := BestPeer (peerMap s) ∅ in
  let hdr := Header (blockchain s) in
  match bestPeer with
  | None => Returns false
  | Some bp =>
      match hdr with
      | None => Panics
      | Some hd => Returns (types.Number hd <? Number bp)
      end
  end.

(** *** BulkSync *)

(** The closure [updateLocalLatest]: the head's number when the head is
    known, otherwise [localLatest] keeps its value. *)
Definition updateLocalLatest (s : syncer) (localLatest : uint64) : uint64 :=
  match Header (blockchain s) with
  | Some hd => types.Number hd
  | None => localLatest
  end.

(** Which statement left the [for] loop of [BulkSync]. *)
Inductive BulkExit : Type :=
| ExitNoCandidate   (* break: bestPeer == nil || bestPeer.Number <= localLatest *)
| ExitFullySynced   (* break: err == nil && lastNumber >= bestPeer.Number *)
| ExitPanic.        (* bulkSyncWithPeer dereferenced a nil header *)

(** How one pass through the body of the [for] loop of [BulkSync] ends: at
    the end of the body, with the loop's variables, or by leaving the loop. *)
Inductive BulkStep : Type :=
| BulkNext (localLatest : uint64) (skipList : SkipList)
| BulkLeave (exit : BulkExit).

(** The body of the [for] loop of [BulkSync]. *)
Definition bulkSyncIteration (newBlockCallback : Callback) (s : syncer)
    (localLatest : uint64) (skipList : SkipList) : syncer * BulkStep :=
  match BestPeer (peerMap s) skipList with
  | None => (s, BulkLeave ExitNoCandidate)
  | Some bestPeer =>
      if Number bestPeer <=? localLatest then (s, BulkLeave ExitNoCandidate)
      else
        (* Set the target height *)
        let s1 := record (CallUpdateHighestProgression (Number bestPeer)) s in
        match bulkSyncWithPeer s1 (ID bestPeer) newBlockCallback with
        | (s2, Panics) => (s2, BulkLeave ExitPanic)
        | (s2, Returns (lastNumber, _, err)) =>
            let fully :=
              match err with
              | None => Number bestPeer <=? lastNumber
              | Some _ => false
              end in
            if fully then (s2, BulkLeave ExitFullySynced)
            else
              (s2, BulkNext (updateLocalLatest s2 localLatest)
                            (<[ID bestPeer := true]> skipList))
        end
  end.

(** The [for] loop of [BulkSync], at most [fuel] iterations; [None] when
    they do not suffice. *)
Fixpoint bulkSyncLoop (fuel : nat) (newBlockCallback : Callback) (s : syncer)
    (localLatest : uint64) (skipList : SkipList)
  : option (syncer * SkipList * BulkExit) :=
  match fuel with
  | O => None
  | S fuel' =>
      match bulkSyncIteration newBlockCallback s localLatest skipList with
      | (s1, BulkLeave exit) => Some (s1, skipList, exit)
      | (s1, BulkNext localLatest' skipList') =>
          bulkSyncLoop fuel' newBlockCallback s1 localLatest' skipList'
      end
  end.

(** [BulkSync]: one iteration per peer of the table and one more are enough
    (theorem [BulkSync_terminates]). The deferred [StopProgression]
    also runs when the body panics. *)
Definition BulkSync (s : syncer) (newBlockCallback : Callback)
  : option (syncer * Outcome (option error)) :=
  let localLatest := updateLocalLatest s 0 in
  let s1 := record (CallStartProgression (uint64_add localLatest 1))
                   (record CallSubscribeEvents s) in
  match bulkSyncLoop (S (size (peerMap s))) newBlockCallback s1 localLatest ∅ with
  | None => None
  | Some (s2, _, exit) =>
      Some (record CallStopProgression s2,
            match exit with
            | ExitPanic => Panics
            | _ => Returns None
            end)
  end.

(** *** WatchSync *)

(** How one pass through the body of the [for] loop of [WatchSync] ends:
    back at [<-s.newStatusCh] with the loop's variables, at [break], or in a
    panic. *)
Inductive WatchStep : Type :=
| StepWait (localLatest : uint64) (skipList : SkipList)
| StepBreak
| StepPanic.

(** The body of the loop after a wake-up. *)
Definition watchSyncIteration (newBlockCallback : Callback) (s : syncer)
    (localLatest : uint64) (skipList : SkipList) : syncer * WatchStep :=
  let localLatest := updateLocalLatest s localLatest in
  match BestPeer (peerMap s) skipList with
  | None => (s, StepWait localLatest ∅)
  | Some bestPeer =>
      if Number bestPeer <=? localLatest then (s, StepWait localLatest skipList)
      else
        match bulkSyncWithPeer s (ID bestPeer) newBlockCallback with
        | (s1, Panics) => (s1, StepPanic)
        | (s1, Returns (lastNumber, shouldTerminate, err)) =>
            let failed :=
              match err with
              | Some _ => true
              | None => lastNumber <? Number bestPeer
              end in
            if failed then
              (s1, StepWait localLatest (<[ID bestPeer := true]> skipList))
            else if shouldTerminate then (s1, StepBreak)
            else (s1, StepWait localLatest skipList)
        end
  end.

Inductive WatchExit : Type :=
| WatchReturned (err : option error)
| WatchPanicked
| WatchWaiting (localLatest : uint64) (skipList : SkipList).

(** The loop of [WatchSync] over the wake-ups it gets from [newStatusCh];
    each comes with the peer table the listeners have built by then. When no
    wake-up is left the mode is blocked on the channel. *)
Fixpoint watchSyncLoop (newBlockCallback : Callback) (wakeups : list PeerMap)
    (s : syncer) (localLatest : uint64) (skipList : SkipList)
  : syncer * WatchExit :=
  match wakeups with
  | [] => (s, WatchWaiting localLatest skipList)
  | table :: later =>
      match watchSyncIteration newBlockCallback (set_peerMap table s)
                               localLatest skipList with
      | (s1, StepWait localLatest' skipList') =>
          watchSyncLoop newBlockCallback later s1 localLatest' skipList'
      | (s1, StepBreak) => (s1, WatchReturned None)
      | (s1, StepPanic) => (s1, WatchPanicked)
      end
  end.

Definition WatchSync (s : syncer) (newBlockCallback : Callback)
    (wakeups : list PeerMap) : syncer * WatchExit :=
  match Header (blockchain s) with
  | None => (s, WatchPanicked)
  | Some hd => watchSyncLoop newBlockCallback wakeups s (types.Number hd) ∅
  end.

End Syncer.

Arguments syncer C K : clear implicits.

(** ** A scripted chain and a scripted client

    Implementations of the two interfaces in the style of the package's test
    doubles; the examples and counterexamples below run on them. *)

(** A chain that knows its head and refuses the heights listed. *)
Record scriptedChain : Type := mkChain {
  chainHead : option types.Header;
  written : list types.Block;
  verifyFails : list uint64;
  writeFails : list uint64
}.

#[export] Instance scriptedChain_Blockchain : Blockchain scriptedChain := {
  Header c := chainHead c;
  VerifyFinalizedBlock c b :=
    if bool_decide (types.Block_Number b ∈ verifyFails c)
    then Some (errors_New "invalid block") else None;
  WriteBlock c b :=
    if bool_decide (types.Block_Number b ∈ writeFails c)
    then (c, Some (errors_New "write failed"))
    else (mkChain (Some (types.header b)) (written c ++ [b])
                  (verifyFails c) (writeFails c), None)
}.

(** A client that answers the successive [GetBlocks] calls from a script. *)
Record scriptedClient : Type := mkClient {
  script : list (error + BlockStream)
}.

#[export] Instance scriptedClient_SyncPeerClient : SyncPeerClient scriptedClient := {
  GetBlocks k _ _ _ :=
    match script k with
    | [] => (k, inl (errors_New "no stream"))
    | answer :: later => (mkClient later, answer)
    end;
  CloseStream k _ := (k, None)
}.

Definition block (n : uint64) : types.Block :=
  types.mkBlock (types.mkHeader n n) [].

(** ** Vocabulary of the statements *)

(** The blocks the callback was invoked on, in order. *)
Definition callbackBlocks (log : list Call) : list types.Block :=
  omap (λ c, match c with CallNewBlockCallback b _ => Some b | _ => None end) log.

(** The answers the callback gave, in order. *)
Definition callbackResults (log : list Call) : list bool :=
  omap (λ c, match c with CallNewBlockCallback _ r => Some r | _ => None end) log.

(** The answer of the last callback invocation of the log, [false] when the
    callback was not invoked. *)
Definition lastCallbackResult (log : list Call) : bool :=
  default false (last (callbackResults log)).

(** The block a call is about, for the three calls that take one. *)
Definition callBlock (c : Call) : option types.Block :=
  match c with
  | CallVerifyFinalizedBlock b | CallWriteBlock b | CallNewBlockCallback b _ => Some b
  | _ => None
  end.

(** The blocks of a stream that are not skipped by the safe check. *)
Definition nonzero (blocks : list types.Block) : list types.Block :=
  filter (λ b, types.Block_Number b ≠ 0) blocks.

(** The height of the last block of a list, [dflt] for the empty list. *)
Definition lastHeight (dflt : uint64) (blocks : list types.Block) : uint64 :=
  default dflt (last (types.Block_Number <$> blocks)).

(** The greatest height of a list of blocks, [0] for the empty list. *)
Definition highestHeight (blocks : list types.Block) : uint64 :=
  foldr N.max 0 (types.Block_Number <$> blocks).

Section Vocabulary.
Context {C K : Type} `{!Blockchain C} `{!SyncPeerClient K}.

(** The pull loop, started in state [(s, l, f)], takes [blocks] one after
    the other without aborting and then stands in state [(s', l', f')]: on
    these blocks followed by a closed channel it returns with no error. *)
Definition consumes (cb : Callback) (s : syncer C K) (l : uint64) (f : bool)
    (blocks : list types.Block) (s' : syncer C K) (l' : uint64) (f' : bool)
  : Prop :=
  pullLoop cb s l f blocks ChannelClosed = (s', (l', f', None)).

(** The syncer once [GetBlocks] has returned with client state [k1], and
    once the deferred [CloseStream] has run. *)
Definition opened (s : syncer C K) (peerID : peer_ID) (from : uint64) (k1 : K)
  : syncer C K :=
  record (CallGetBlocks peerID from (blockTimeout s)) (set_syncPeerClient k1 s).

Definition closed (s : syncer C K) (peerID : peer_ID) : syncer C K :=
  record (CallCloseStream peerID)
         (set_syncPeerClient (CloseStream (syncPeerClient s) peerID).1 s).

(** The chain accepts the blocks one after the other: each one that is not
    of height 0 verifies, is written without error and is the head
    afterwards. The chain after the last one is [c']. *)
Fixpoint accepts (c : C) (blocks : list types.Block) (c' : C) : Prop :=
  match blocks with
  | [] => c' = c
  | b :: rest =>
      if types.Block_Number b =? 0 then accepts c rest c'
      else
        VerifyFinalizedBlock c b = None ∧
        ∃ c1, WriteBlock c b = (c1, None) ∧
              Header c1 = Some (types.header b) ∧
              accepts c1 rest c'
  end.

(** The blocks are numbered [from], [from + 1], ... in this order. *)
Fixpoint consecutive (from : uint64) (blocks : list types.Block) : Prop :=
  match blocks with
  | [] => True
  | b :: rest => types.Block_Number b = from ∧ consecutive (from + 1) rest
  end.

(** The syncer once [BulkSync] has started the progression. *)
Definition started (s : syncer C K) : syncer C K :=
  record (CallStartProgression (uint64_add (updateLocalLatest s 0) 1))
         (record CallSubscribeEvents s).

End Vocabulary.

(** ** Scenarios on the scripted chain and client *)

Definition alwaysTerminate : list Call → types.Block → bool := λ _ _, true.
Definition neverTerminate : list Call → types.Block → bool := λ _ _, false.

Definition chainAt (head : uint64) (verifyFails writeFails : list uint64)
  : scriptedChain :=
  mkChain (Some (types.mkHeader head head)) [] verifyFails writeFails.

Definition syncerWith (c : scriptedChain) (peers : list NoForkPeer)
    (answers : list (error + BlockStream))
  : syncer scriptedChain scriptedClient :=
  mkSyncer c (Put peers ∅) (mkClient answers) 10%Z [].

(** The head is at 0; the peer sends block 1, then block 2, which does not
    verify. *)
Definition secondBlockInvalid : syncer scriptedChain scriptedClient :=
  syncerWith (chainAt 0 [2] []) []
             [inr (mkStream [block 1; block 2] ChannelClosed)].

(** The head is at 4; the peer sends block 5, then block 3 again, and
    stalls. The chain accepts both. *)
Definition staleBlockThenStall : syncer scriptedChain scriptedClient :=
  syncerWith (chainAt 4 [] []) []
             [inr (mkStream [block 5; block 3] TimerFired)].

(** The head is at 2; the peer sends blocks 3 and 4 and stalls. *)
Definition stallAfterTwo : syncer scriptedChain scriptedClient :=
  syncerWith (chainAt 2 [] []) []
             [inr (mkStream [block 3; block 4] TimerFired)].

(** The head is at 2; the peer sends a block of height 0 between blocks 3
    and 4. *)
Definition zeroInTheMiddle : syncer scriptedChain scriptedClient :=
  syncerWith (chainAt 2 [] []) []
             [inr (mkStream [block 3; block 0; block 4] ChannelClosed)].

(** The head is at 0 and the idle timeout is 10. The pull loop starts
    waiting at time 0; block 1 can be received at time 12 only, and the
    channel is closed at 14. *)
Definition lateBlockAlone : syncer scriptedChain scriptedClient :=
  syncerWith (chainAt 0 [] []) []
             [inr (selects 10 0 [mkArrival 12 (block 1) 1] (ClosedAt 14))].

(** The same, but a block of height 0 can be received at time 6. *)
Definition zeroBlockBeforeLateBlock : syncer scriptedChain scriptedClient :=
  syncerWith (chainAt 0 [] []) []
             [inr (selects 10 0 [mkArrival 6 (block 0) 0;
                                 mkArrival 12 (block 1) 1] (ClosedAt 14))].

(** The head is at 2; the only peer advertises 5 and sends blocks 3, 4, 5. *)
Definition singlePeerAhead : syncer scriptedChain scriptedClient :=
  syncerWith (chainAt 2 [] []) [mkPeer "p" 5]
             [inr (mkStream [block 3; block 4; block 5] ChannelClosed)].

(** The head is at 2; the best peer, q, cannot be dialled; the next one, p,
    sends blocks 3, 4, 5. *)
Definition bestPeerUnreachable : syncer scriptedChain scriptedClient :=
  syncerWith (chainAt 2 [] []) [mkPeer "q" 7; mkPeer "p" 5]
             [inl (errors_New "dial failed");
              inr (mkStream [block 3; block 4; block 5] ChannelClosed)].

(** The head is unknown and a peer advertises 5. *)
Definition headUnknown : syncer scriptedChain scriptedClient :=
  syncerWith (mkChain None [] [] []) [mkPeer "p" 5]
             [inr (mkStream [block 1] ChannelClosed)].

(** The head is at 2, and the only peer known, at 5, is on the skip list. *)
Definition onlyPeerTable : gmap string NoForkPeer := Put [mkPeer "p" 5] ∅.
Definition onlyPeerSkipped : gmap string bool := <["p" := true]> ∅.

(** The head is at 2; the only peer advertises 5, sends blocks 3 and 4 and
    stalls. *)
Definition singlePeerStalls : syncer scriptedChain scriptedClient :=
  syncerWith (chainAt 2 [] []) [mkPeer "p" 5]
             [inr (mkStream [block 3; block 4] TimerFired)].

(** ** Reading more off the log *)

(** The blocks [VerifyFinalizedBlock] was called on, in order. *)
Definition verifyCalls (log : list Call) : list types.Block :=
  omap (λ c, match c with CallVerifyFinalizedBlock b => Some b | _ => None end) log.

(** The blocks [WriteBlock] was called on, in order. *)
Definition writeCalls (log : list Call) : list types.Block :=
  omap (λ c, match c with CallWriteBlock b => Some b | _ => None end) log.

(** The calls that are about a block, in order. *)
Definition blockCalls (log : list Call) : list Call :=
  omap (λ c, match c with
             | CallVerifyFinalizedBlock _ | CallWriteBlock _
             | CallNewBlockCallback _ _ => Some c
             | _ => None
             end) log.

(** What the log shows for blocks applied one after the other, each with the
    answer of the callback: verified, then written, then passed to the
    callback, and only then the next one. *)
Fixpoint appliedCalls (done : list (types.Block * bool)) : list Call :=
  match done with
  | [] => []
  | (b, answer) :: rest =>
      CallVerifyFinalizedBlock b :: CallWriteBlock b
        :: CallNewBlockCallback b answer :: appliedCalls rest
  end.

(** The peers [GetBlocks] was called for, in order. *)
Definition pulledPeers (log : list Call) : list string :=
  omap (λ c, match c with CallGetBlocks id _ _ => Some id | _ => None end) log.

(** The calls that open and close streams. *)
Definition streamCalls (log : list Call) : list Call :=
  omap (λ c, match c with
             | CallGetBlocks _ _ _ | CallCloseStream _ => Some c
             | _ => None
             end) log.

(** The calls to the progression tracker, with the subscription it is
    given. *)
Definition progressionCalls (log : list Call) : list Call :=
  omap (λ c, match c with
             | CallStartProgression _ | CallSubscribeEvents
             | CallStopProgression | CallUpdateHighestProgression _ => Some c
             | _ => None
             end) log.

(** The chain after [WriteBlock] was called on the blocks, one after the
    other, whatever each call returned. *)
Definition writeAll {C : Type} `{!Blockchain C} (c : C)
    (blocks : list types.Block) : C :=
  foldl (λ c b, (WriteBlock c b).1) c blocks.

(** Each block, in turn, verifies on the chain as the blocks before it left
    it, and is then written to that chain without error. *)
Fixpoint appliedOn {C : Type} `{!Blockchain C} (c : C)
    (blocks : list types.Block) : Prop :=
  match blocks with
  | [] => True
  | b :: rest =>
      VerifyFinalizedBlock c b = None ∧
      (WriteBlock c b).2 = None ∧
      appliedOn (WriteBlock c b).1 rest
  end.

(** ** Closing the syncer *)

(** The collaborators [Close] calls: [syncPeerService.Close] returns an
    error, the result of [syncPeerClient.Close] is not looked at. *)
Class Closers (K V : Type) : Type := {
  service_Close : V → V * option error;
  client_Close : K → K
}.

Inductive CloseCall : Type :=
| CallCloseNewStatusCh
| CallServiceClose
| CallClientClose.

(** What [Close] touches of [struct syncer]: the service, the client and the
    channel [newStatusCh], here the fact that it was closed. *)
Record closing (K V : Type) : Type := mkClosing {
  closingClient : K;
  closingService : V;
  newStatusChClosed : bool;
  closeCalls : list CloseCall
}.
Arguments mkClosing {K V} _ _ _ _.
Arguments closingClient {K V} _.
Arguments closingService {K V} _.
Arguments newStatusChClosed {K V} _.
Arguments closeCalls {K V} _.

(** [Close]. Closing a channel that is closed already panics. *)
Definition Close {K V : Type} `{!Closers K V} (s : closing K V)
  : closing K V * Outcome (option error) :=
  if newStatusChClosed s then (s, Panics)
  else
    let '(v, err) := service_Close (closingService s) in
    let log := closeCalls s ++ [CallCloseNewStatusCh; CallServiceClose] in
    match err with
    | Some e => (mkClosing (closingClient s) v true log, Returns (Some e))
    | None =>
        (mkClosing (client_Close (closingClient s)) v true
                   (log ++ [CallClientClose]),
         Returns None)
    end.

(** A service whose [Close] fails as long as the counter is above 0, and a
    client that counts its [Close] calls. *)
#[export] Instance countingClosers : Closers nat nat := {
  service_Close v :=
    match v with
    | O => (O, None)
    | S v' => (v', Some (errors_New "service busy"))
    end;
  client_Close k := S k
}.

(** ** Properties of the pull loop *)

Section PullLoop.
Context {C K : Type} `{!Blockchain C} `{!SyncPeerClient K}.
Implicit Types (s : syncer C K) (cb : list Call → types.Block → bool).
Implicit Types (blocks pre rest : list types.Block) (b : types.Block).

(** One step of the loop in a proof by induction on the stream: the block
    is skipped, fails verification, fails to be written, or is applied. *)
Ltac pull_cases b :=
  simpl;
  destruct (types.Block_Number b =? 0);
    [|destruct (VerifyFinalizedBlock _ b);
        [|destruct (WriteBlock _ b) as [? [?|]]]].

Lemma pullLoop_zero cb s l f b rest e :
  types.Block_Number b = 0 →
  pullLoop cb s l f (b :: rest) e = pullLoop cb s l f rest e.
Proof. intros Hz. simpl. by rewrite Hz. Qed.

Lemma pullLoop_app cb pre : ∀ s l f s' l' f' rest e,
  consumes cb s l f pre s' l' f' →
  pullLoop cb s l f (pre ++ rest) e = pullLoop cb s' l' f' rest e.
Proof.
  unfold consumes. induction pre as [|b pre IH]; intros s l f s' l' f' rest e.
  - simpl. by intros [= -> -> ->].
  - pull_cases b; [by apply IH|done|done|by apply IH].
Qed.

(** A run that ends with the channel closed either aborted on a block, with
    a wrapped error, or ended without error; the timer firing instead only
    changes the error of the second case. *)
Lemma pullLoop_timer cb blocks : ∀ s l f s' l' f',
  consumes cb s l f blocks s' l' f' →
  pullLoop cb s l f blocks TimerFired = (s', (l', f', Some errTimeout)).
Proof.
  unfold consumes. induction blocks as [|b blocks IH]; intros s l f s' l' f'.
  - simpl. by intros [= -> -> ->].
  - pull_cases b; [by apply IH|done|done|by apply IH].
Qed.

Lemma default_last_cons {A} (d x : A) (l : list A) :
  default d (last (x :: l)) = default x (last l).
Proof. rewrite last_cons. by destruct (last l). Qed.

Lemma lastHeight_cons d b blocks :
  lastHeight d (b :: blocks) = lastHeight (types.Block_Number b) blocks.
Proof. unfold lastHeight. rewrite fmap_cons. apply default_last_cons. Qed.

(** The loop touches neither the peer table, nor the client, nor the
    timeout. *)
Lemma pullLoop_frame cb blocks e : ∀ s l f s' r,
  pullLoop cb s l f blocks e = (s', r) →
  peerMap s' = peerMap s ∧ syncPeerClient s' = syncPeerClient s ∧
  blockTimeout s' = blockTimeout s.
Proof.
  induction blocks as [|b blocks IH]; intros s l f s' r; simpl.
  - destruct e; by intros [= <- _].
  - pull_cases b; [by apply IH|by intros [= <- _]..|].
    intros Hrun. by apply IH in Hrun.
Qed.

(** What a run of the loop adds to the log, and how its results read off
    it. *)
Lemma pullLoop_log cb blocks e : ∀ s l f s' n flag err,
  pullLoop cb s l f blocks e = (s', (n, flag, err)) →
  ∃ new,
    calls s' = calls s ++ new ∧
    Forall (λ c, ∀ b, callBlock c = Some b → types.Block_Number b ≠ 0) new ∧
    n = lastHeight l (callbackBlocks new) ∧
    (err = None ∨ err = Some errTimeout →
       flag = default f (last (callbackResults new)) ∧
       callbackBlocks new = nonzero blocks) ∧
    (err ≠ None → err ≠ Some errTimeout → flag = false).
Proof.
  induction blocks as [|b blocks IH]; intros s l f s' n flag err; simpl.
  - intros Hrun. exists []. rewrite app_nil_r.
    destruct e; injection Hrun as <- <- <- <-; repeat split; auto; done.
  - unfold nonzero. rewrite filter_cons.
    destruct (N.eqb_spec (types.Block_Number b) 0) as [Hz|Hnz].
    { rewrite decide_False by (intros ?; done). apply IH. }
    rewrite decide_True by done.
    destruct (VerifyFinalizedBlock _ b) as [verr|] eqn:Hv.
    { intros [= <- <- <- <-]. exists [CallVerifyFinalizedBlock b].
      split; [done|]. split; [by repeat constructor; intros ? [= <-]|].
      split; [done|]. split; [by intros [[=]|[=]]|done]. }
    destruct (WriteBlock _ b) as [c1 [werr|]] eqn:Hw.
    { intros [= <- <- <- <-].
      exists [CallVerifyFinalizedBlock b; CallWriteBlock b]. simpl.
      rewrite <- app_assoc.
      split; [done|]. split; [by repeat constructor; intros ? [= <-]|].
      split; [done|]. split; [by intros [[=]|[=]]|done]. }
    intros Hrun. apply IH in Hrun as (new & Hcalls & Hnz' & Hn & Hok & Hbad).
    simpl in Hcalls. rewrite <- !app_assoc in Hcalls. simpl in Hcalls.
    eexists. split; [exact Hcalls|].
    split; [by repeat (constructor; [by intros ? [= <-]|])|].
    split; [simpl; by rewrite lastHeight_cons|].
    split; [|done].
    intros Herr. destruct (Hok Herr) as [-> Hcb]. rewrite <- app_assoc.
    split; [simpl; by rewrite default_last_cons|].
    simpl. by rewrite Hcb.
Qed.

Lemma consumes_log cb blocks s l f s' l' f' :
  consumes cb s l f blocks s' l' f' →
  ∃ new,
    calls s' = calls s ++ new ∧
    callbackBlocks new = nonzero blocks ∧
    l' = lastHeight l (nonzero blocks) ∧
    f' = default f (last (callbackResults new)).
Proof.
  intros Hrun. apply pullLoop_log in Hrun as (new & Hcalls & _ & Hn & Hok & _).
  destruct Hok as [Hf Hcb]; [by left|]. exists new. by rewrite <- Hcb.
Qed.

Lemma pullLoop_skip cb pre : ∀ s l f b rest e,
  types.Block_Number b = 0 →
  pullLoop cb s l f (pre ++ b :: rest) e = pullLoop cb s l f (pre ++ rest) e.
Proof.
  induction pre as [|a pre IH]; intros s l f b rest e Hz.
  - by apply pullLoop_zero.
  - pull_cases a; [by apply IH|done|done|by apply IH].
Qed.

(** *** bulkSyncWithPeer as a whole *)

Lemma bulkSyncWithPeer_nil_header s p cb :
  Header (blockchain s) = None → bulkSyncWithPeer s p cb = (s, Panics).
Proof. intros Hh. unfold bulkSyncWithPeer. by rewrite Hh. Qed.

Lemma bulkSyncWithPeer_not_opened s p cb hd k1 err :
  Header (blockchain s) = Some hd →
  GetBlocks (syncPeerClient s) p (uint64_add (types.Number hd) 1) (blockTimeout s)
    = (k1, inl err) →
  bulkSyncWithPeer s p cb
    = (opened s p (uint64_add (types.Number hd) 1) k1, Returns (0, false, Some err)).
Proof. intros Hh Hg. unfold bulkSyncWithPeer. by rewrite Hh, Hg. Qed.

Lemma bulkSyncWithPeer_opened s p cb hd k1 st s2 r :
  Header (blockchain s) = Some hd →
  GetBlocks (syncPeerClient s) p (uint64_add (types.Number hd) 1) (blockTimeout s)
    = (k1, inr st) →
  pullLoop cb (opened s p (uint64_add (types.Number hd) 1) k1) 0 false
           (delivered st) (stream_end st) = (s2, r) →
  bulkSyncWithPeer s p cb = (closed s2 p, Returns r).
Proof.
  intros Hh Hg Hrun. unfold bulkSyncWithPeer. rewrite Hh, Hg.
  unfold opened in Hrun. rewrite Hrun. unfold closed.
  by destruct (CloseStream (syncPeerClient s2) p).
Qed.

(** The three ways a call of [bulkSyncWithPeer] goes. *)
Lemma bulkSyncWithPeer_cases s p cb :
  (Header (blockchain s) = None ∧ bulkSyncWithPeer s p cb = (s, Panics)) ∨
  (∃ hd k1 err,
     Header (blockchain s) = Some hd ∧
     GetBlocks (syncPeerClient s) p (uint64_add (types.Number hd) 1)
               (blockTimeout s) = (k1, inl err) ∧
     bulkSyncWithPeer s p cb
       = (opened s p (uint64_add (types.Number hd) 1) k1,
          Returns (0, false, Some err))) ∨
  (∃ hd k1 st s2 r,
     Header (blockchain s) = Some hd ∧
     GetBlocks (syncPeerClient s) p (uint64_add (types.Number hd) 1)
               (blockTimeout s) = (k1, inr st) ∧
     pullLoop cb (opened s p (uint64_add (types.Number hd) 1) k1) 0 false
              (delivered st) (stream_end st) = (s2, r) ∧
     bulkSyncWithPeer s p cb = (closed s2 p, Returns r)).
Proof.
  destruct (Header (blockchain s)) as [hd|] eqn:Hh.
  - right.
    destruct (GetBlocks (syncPeerClient s) p (uint64_add (types.Number hd) 1)
                        (blockTimeout s)) as [k1 [err|st]] eqn:Hg.
    + left. exists hd, k1, err. eauto using bulkSyncWithPeer_not_opened.
    + right.
      destruct (pullLoop cb (opened s p (uint64_add (types.Number hd) 1) k1)
                         0 false (delivered st) (stream_end st))
        as [s2 r] eqn:Hrun.
      exists hd, k1, st, s2, r. eauto using bulkSyncWithPeer_opened.
  - left. eauto using bulkSyncWithPeer_nil_header.
Qed.

(** C9. [bulkSyncWithPeer] has consumed the blocks [pre] of its stream and
    receives a block [b] of height above 0. If [b] fails verification, the
    call returns the wrapped error with no [WriteBlock] on [b]: the chain is
    the one the blocks before left, and after the verification the log only
    has the deferred [CloseStream]. If [b] verifies and its commit fails, the
    call returns the wrapped error as well. In both cases the blocks of
    [pre] stay applied (they were passed to the callback, the chain is left
    as their writes made it), and the height returned is that of the last of
    them, 0 when there is none. *)
Theorem verify_or_commit_failure_aborts s p cb hd k1 pre b rest e s' l' f' :
  Header (blockchain s) = Some hd →
  GetBlocks (syncPeerClient s) p (uint64_add (types.Number hd) 1) (blockTimeout s)
    = (k1, inr (mkStream (pre ++ b :: rest) e)) →
  consumes cb (opened s p (uint64_add (types.Number hd) 1) k1) 0 false
           pre s' l' f' →
  types.Block_Number b ≠ 0 →
  l' = lastHeight 0 (nonzero pre) ∧
  callbackBlocks (calls s') = callbackBlocks (calls s) ++ nonzero pre ∧
  (∀ verr, VerifyFinalizedBlock (blockchain s') b = Some verr →
     ∃ sf, bulkSyncWithPeer s p cb =
             (sf, Returns (l', false,
                           Some (fmt_Errorf "unable to verify block, %w" verr))) ∧
           blockchain sf = blockchain s' ∧
           calls sf = calls s' ++ [CallVerifyFinalizedBlock b; CallCloseStream p]) ∧
  (∀ c1 werr, VerifyFinalizedBlock (blockchain s') b = None →
     WriteBlock (blockchain s') b = (c1, Some werr) →
     ∃ sf, bulkSyncWithPeer s p cb =
             (sf, Returns (l', false,
                           Some (fmt_Errorf "failed to write block while bulk syncing: %w"
                                            werr))) ∧
           blockchain sf = c1 ∧
           calls sf = calls s' ++ [CallVerifyFinalizedBlock b; CallWriteBlock b;
                                   CallCloseStream p]).
Proof.
  intros Hh Hg Hpre Hnz.
  pose proof (consumes_log _ _ _ _ _ _ _ _ Hpre) as (new & Hcalls & Hcb & Hl & _).
  split; [done|]. split.
  { rewrite Hcalls. unfold callbackBlocks in *. simpl.
    by rewrite !omap_app, Hcb, app_nil_r. }
  apply N.eqb_neq in Hnz. split.
  - intros verr Hv. eexists. split.
    + eapply bulkSyncWithPeer_opened; [exact Hh|exact Hg|]. simpl.
      rewrite (pullLoop_app _ _ _ _ _ _ _ _ _ _ Hpre). simpl.
      by rewrite Hnz, Hv.
    + simpl. split; [done|]. by rewrite <- app_assoc.
  - intros c1 werr Hv Hw. eexists. split.
    + eapply bulkSyncWithPeer_opened; [exact Hh|exact Hg|]. simpl.
      rewrite (pullLoop_app _ _ _ _ _ _ _ _ _ _ Hpre). simpl.
      by rewrite Hnz, Hv, Hw.
    + simpl. split; [done|]. by rewrite <- !app_assoc.
Qed.

(** What [selects] yields on its first block, by the time it arrives. *)
Lemma selects_received T entered t b d later q :
  (t < entered + T)%Z →
  selects T entered (mkArrival t b d :: later) q
    = mkStream (b :: delivered (selects T (Z.max entered t + d) later q))
               (stream_end (selects T (Z.max entered t + d) later q)).
Proof.
  intros Ht. simpl. by destruct (Z.ltb_spec t (entered + T)); [|lia].
Qed.

Lemma selects_too_late T entered t b d later q :
  (entered + T ≤ t)%Z →
  selects T entered (mkArrival t b d :: later) q = mkStream [] TimerFired.
Proof.
  intros Ht. simpl. by destruct (Z.ltb_spec t (entered + T)); [lia|].
Qed.

(** C3, as amended. A block of height 0 received by the pull loop is
    ignored by the chain and the callback, but not by the idle timeout.
    Received when the loop is in state [(s, l, f)], it leaves that state as
    it is (log, chain and last applied height included); received anywhere
    in a stream, the run is the run of the stream without it, and so is what
    [bulkSyncWithPeer] does and returns; and no [VerifyFinalizedBlock],
    [WriteBlock] or callback call that the run logs is about it.
    Receiving it does end the wait of that pass: [continue] takes the loop
    back to the [select], which arms a fresh timer. From there the run is
    the one of a loop that starts waiting when the block has been received.
    So a block [b1] that comes too late for the timer that was running, but
    within [blockTimeout] of the block of height 0, is received, where
    without the block of height 0 the loop returns [errTimeout]. *)
Theorem zero_height_block_rearms_timer cb s l f pre b rest e :
  types.Block_Number b = 0 →
  pullLoop cb s l f (b :: rest) e = pullLoop cb s l f rest e ∧
  pullLoop cb s l f (pre ++ b :: rest) e = pullLoop cb s l f (pre ++ rest) e ∧
  (∀ s' r, pullLoop cb s l f (pre ++ b :: rest) e = (s', r) →
     ∃ new, calls s' = calls s ++ new ∧
            (CallVerifyFinalizedBlock b ∉ new) ∧
            (CallWriteBlock b ∉ new) ∧
            (∀ answer, CallNewBlockCallback b answer ∉ new)) ∧
  (∀ s0 p hd k1 s2 r,
     Header (blockchain s0) = Some hd →
     GetBlocks (syncPeerClient s0) p (uint64_add (types.Number hd) 1)
               (blockTimeout s0) = (k1, inr (mkStream (pre ++ b :: rest) e)) →
     pullLoop cb (opened s0 p (uint64_add (types.Number hd) 1) k1) 0 false
              (pre ++ rest) e = (s2, r) →
     bulkSyncWithPeer s0 p cb = (closed s2 p, Returns r)) ∧
  (∀ T entered t d later q,
     (t < entered + T)%Z →
     pullLoop cb s l f
              (delivered (selects T entered (mkArrival t b d :: later) q))
              (stream_end (selects T entered (mkArrival t b d :: later) q))
     = pullLoop cb s l f
                (delivered (selects T (Z.max entered t + d) later q))
                (stream_end (selects T (Z.max entered t + d) later q))) ∧
  (∀ T entered t d t1 b1 d1 later q,
     (entered ≤ t < entered + T)%Z →
     (0 ≤ d)%Z →
     (entered + T < t1 < t + d + T)%Z →
     pullLoop cb s l f
              (delivered (selects T entered (mkArrival t1 b1 d1 :: later) q))
              (stream_end (selects T entered (mkArrival t1 b1 d1 :: later) q))
     = (s, (l, f, Some errTimeout)) ∧
     pullLoop cb s l f
              (delivered (selects T entered
                            (mkArrival t b d :: mkArrival t1 b1 d1 :: later) q))
              (stream_end (selects T entered
                            (mkArrival t b d :: mkArrival t1 b1 d1 :: later) q))
     = pullLoop cb s l f
                (b1 :: delivered (selects T (Z.max (t + d) t1 + d1) later q))
                (stream_end (selects T (Z.max (t + d) t1 + d1) later q))).
Proof.
  intros Hz. split; [by apply pullLoop_zero|]. split; [by apply pullLoop_skip|].
  split; [|split; [|split]].
  - intros s' [[n flag] err] Hrun.
    apply pullLoop_log in Hrun as (new & Hcalls & Hnz & _).
    exists new. split; [done|]. rewrite Forall_forall in Hnz.
    split; [|split]; [intros Hin|intros Hin|intros answer Hin];
      by apply (Hnz _ Hin b).
  - intros s0 p hd k1 s2 r Hh Hg Hrun.
    apply (bulkSyncWithPeer_opened _ _ _ _ _ _ _ _ Hh Hg). simpl.
    by rewrite pullLoop_skip.
  - intros T entered t d later q Ht.
    rewrite selects_received by done. cbn [delivered stream_end].
    by apply pullLoop_zero.
  - intros T entered t d t1 b1 d1 later q Ht Hd Ht1. split.
    + by rewrite selects_too_late by lia.
    + rewrite selects_received by lia. cbn [delivered stream_end].
      rewrite pullLoop_zero by done.
      replace (Z.max entered t) with t by lia.
      rewrite selects_received by lia. by cbn [delivered stream_end].
Qed.

(** A pull that returns no error: its flag and its height, read off the
    log. *)
Lemma bulkSyncWithPeer_success s p cb s' n flag :
  bulkSyncWithPeer s p cb = (s', Returns (n, flag, None)) →
  ∃ new, calls s' = calls s ++ new ∧
         flag = lastCallbackResult new ∧
         n = lastHeight 0 (callbackBlocks new).
Proof.
  intros Hcall.
  destruct (bulkSyncWithPeer_cases s p cb)
    as [[_ Hr]|[(hd & k1 & e & _ & _ & Hr)
               |(hd & k1 & st & s2 & r & _ & _ & Hrun & Hr)]];
    rewrite Hcall in Hr; [done..|].
  injection Hr as -> <-.
  apply pullLoop_log in Hrun as (new & Hcalls & _ & Hn & Hok & _).
  destruct Hok as [Hflag _]; [by left|].
  exists (CallGetBlocks p (uint64_add (types.Number hd) 1) (blockTimeout s)
            :: new ++ [CallCloseStream p]).
  split. { simpl. rewrite Hcalls. simpl. by rewrite <- !app_assoc. }
  unfold lastCallbackResult, callbackResults, callbackBlocks in *. simpl.
  by rewrite !omap_app, !app_nil_r.
Qed.

(** C2, as amended. When [bulkSyncWithPeer] returns because the channel was
    closed or the idle timeout fired, the flag it returns is the answer of the
    last callback invocation of the call ([false] when there was none), and
    every block of the stream that is not of height 0 was passed to the
    callback, whatever it answered on earlier ones: a terminate answer does
    not stop the loop, it reaches the caller only through the return. When
    it returns any other error (the stream could not be opened, a block did
    not verify or could not be written), the flag is [false]. *)
Theorem shouldTerminate_flag s p cb s' n flag err :
  bulkSyncWithPeer s p cb = (s', Returns (n, flag, err)) →
  ∃ new,
    calls s' = calls s ++ new ∧
    (err = None ∨ err = Some errTimeout → flag = lastCallbackResult new) ∧
    (err ≠ None → err ≠ Some errTimeout → flag = false) ∧
    (∀ hd k1 st,
       Header (blockchain s) = Some hd →
       GetBlocks (syncPeerClient s) p (uint64_add (types.Number hd) 1)
                 (blockTimeout s) = (k1, inr st) →
       err = None ∨ err = Some errTimeout →
       callbackBlocks new = nonzero (delivered st)).
Proof.
  intros Hcall.
  destruct (bulkSyncWithPeer_cases s p cb)
    as [[_ Hp]|[(hd & k1 & e & Hh & Hg & Hr)|(hd & k1 & st & s2 & r & Hh & Hg & Hrun & Hr)]];
    rewrite Hcall in *.
  - done.
  - injection Hr as -> -> -> ->. eexists. split; [reflexivity|].
    split; [done|]. split; [done|]. intros ??? Hh' Hg'. congruence.
  - injection Hr as -> <-.
    apply pullLoop_log in Hrun as (new & Hcalls & _ & _ & Hok & Hbad).
    exists (CallGetBlocks p (uint64_add (types.Number hd) 1) (blockTimeout s)
              :: new ++ [CallCloseStream p]).
    split. { simpl. rewrite Hcalls. simpl. by rewrite <- !app_assoc. }
    split.
    { intros Herr. destruct (Hok Herr) as [-> _].
      unfold lastCallbackResult, callbackResults. simpl.
      by rewrite omap_app, app_nil_r. }
    split; [done|].
    intros hd' k1' st' Hh' Hg' Herr. destruct (Hok Herr) as [_ Hcb].
    assert (st' = st) as -> by congruence.
    unfold callbackBlocks in *. simpl. by rewrite omap_app, Hcb, app_nil_r.
Qed.

Lemma highest_of_ascending (hs : list N) : ∀ x : N,
  StronglySorted N.le (x :: hs) → default x (last hs) = foldr N.max 0 (x :: hs).
Proof.
  induction hs as [|y hs IH]; intros x Hsorted; simpl.
  - lia.
  - apply StronglySorted_inv in Hsorted as [Hrest Hle].
    rewrite default_last_cons, (IH y Hrest). simpl.
    apply Forall_cons in Hle as [Hxy _]. lia.
Qed.

Lemma lastHeight_highest blocks :
  StronglySorted N.le (types.Block_Number <$> blocks) →
  lastHeight 0 blocks = highestHeight blocks.
Proof.
  unfold lastHeight, highestHeight. destruct blocks as [|b blocks]; [done|].
  rewrite fmap_cons, default_last_cons. apply highest_of_ascending.
Qed.

(** C4, as amended. When the timer fires in a [select] of the pull loop, the
    loop returns at once with [errTimeout] and the height it holds. For a
    call of [bulkSyncWithPeer] whose stream delivers [blocks], all taken
    without abort, and then stalls until the idle timeout: the call returns
    [errTimeout] together with the height of the block applied last (0 when
    none was applied); the blocks applied are those of the stream that are
    not of height 0; and that height is the highest one applied whenever the
    applied heights came in ascending order. *)
Theorem timeout_returns_last_applied s p cb hd k1 blocks s2 l' f' :
  Header (blockchain s) = Some hd →
  GetBlocks (syncPeerClient s) p (uint64_add (types.Number hd) 1) (blockTimeout s)
    = (k1, inr (mkStream blocks TimerFired)) →
  consumes cb (opened s p (uint64_add (types.Number hd) 1) k1) 0 false
           blocks s2 l' f' →
  pullLoop cb s2 l' f' [] TimerFired = (s2, (l', f', Some errTimeout)) ∧
  bulkSyncWithPeer s p cb = (closed s2 p, Returns (l', f', Some errTimeout)) ∧
  callbackBlocks (calls s2) = callbackBlocks (calls s) ++ nonzero blocks ∧
  l' = lastHeight 0 (nonzero blocks) ∧
  (StronglySorted N.le (types.Block_Number <$> nonzero blocks) →
   l' = highestHeight (nonzero blocks)).
Proof.
  intros Hh Hg Hrun. split; [done|]. split.
  { apply (bulkSyncWithPeer_opened _ _ _ _ _ _ _ _ Hh Hg).
    by apply pullLoop_timer. }
  apply consumes_log in Hrun as (new & Hcalls & Hcb & Hl & _).
  split.
  { rewrite Hcalls. unfold callbackBlocks in *. simpl.
    by rewrite !omap_app, Hcb, app_nil_r. }
  split; [done|]. intros Hsorted. rewrite Hl. by apply lastHeight_highest.
Qed.

End PullLoop.

(** ** Properties of best-peer selection *)

Lemma pickBetter_fold (l : list NoForkPeer) : ∀ acc p,
  foldl pickBetter acc l = Some p →
  (acc = Some p ∨ p ∈ l) ∧
  (∀ q, acc = Some q ∨ q ∈ l → Number q ≤ Number p).
Proof.
  induction l as [|x l IH]; intros acc p; simpl.
  - intros ->. split; [by left|]. intros q [[= ->]|Hin]; [lia|].
    by apply elem_of_nil in Hin.
  - intros Hfold. apply IH in Hfold as [Hin Hmax]. split.
    + destruct Hin as [Hacc|Hin]; [|right; by right].
      destruct acc as [b|]; simpl in Hacc.
      * destruct (N.ltb_spec (Number b) (Number x));
          injection Hacc as <-; [right; by left|by left].
      * injection Hacc as <-. right. by left.
    + intros q [->|Hq].
      * destruct (N.ltb_spec (Number q) (Number x)) as [Hlt|Hge].
        -- etrans; [|apply (Hmax x)]; [lia|]. left. simpl.
           by rewrite (proj2 (N.ltb_lt _ _) Hlt).
        -- apply Hmax. left. simpl.
           by rewrite (proj2 (N.ltb_ge _ _) Hge).
      * apply elem_of_cons in Hq as [->|Hq]; [|apply Hmax; by right].
        destruct acc as [b|]; simpl in Hmax.
        -- destruct (N.ltb_spec (Number b) (Number x)).
           ++ apply Hmax. by left.
           ++ etrans; [|apply (Hmax b); by left]. done.
        -- apply Hmax. by left.
Qed.

Lemma pickBetter_fold_None (l : list NoForkPeer) acc :
  foldl pickBetter acc l = None → acc = None ∧ l = [].
Proof.
  revert acc. induction l as [|x l IH]; intros acc; simpl; [done|].
  intros Hfold. apply IH in Hfold as [Hacc _].
  destruct acc as [b|]; simpl in Hacc; [|done].
  by destruct (Number b <? Number x).
Qed.

Lemma elem_of_candidates (m : gmap string NoForkPeer) (skipMap : gmap string bool) p :
  p ∈ candidates m skipMap ↔
  skipped skipMap (ID p) = false ∧ ∃ k, m !! k = Some p.
Proof.
  unfold candidates. rewrite list_elem_of_filter, list_elem_of_fmap.
  split; intros [Hskip Hin]; (split; [done|]).
  - destruct Hin as ([k v] & -> & Hin). exists k. by apply elem_of_map_to_list.
  - destruct Hin as [k Hk]. exists (k, p). split; [done|].
    by apply elem_of_map_to_list.
Qed.

Lemma BestPeer_candidate (m : gmap string NoForkPeer) skipMap p :
  BestPeer m skipMap = Some p → p ∈ candidates m skipMap.
Proof.
  intros Hbest. apply pickBetter_fold in Hbest as [[[=]|Hin] _]. done.
Qed.

Lemma BestPeer_highest (m : gmap string NoForkPeer) skipMap p q :
  BestPeer m skipMap = Some p → q ∈ candidates m skipMap → Number q ≤ Number p.
Proof.
  intros Hbest Hq. apply pickBetter_fold in Hbest as [_ Hmax].
  apply Hmax. by right.
Qed.

Lemma BestPeer_None (m : gmap string NoForkPeer) skipMap :
  BestPeer m skipMap = None ↔ candidates m skipMap = [].
Proof.
  split.
  - intros Hbest. by apply pickBetter_fold_None in Hbest as [_ ?].
  - unfold BestPeer. by intros ->.
Qed.

Lemma BestPeer_is_Some (m : gmap string NoForkPeer) skipMap q :
  q ∈ candidates m skipMap →
  ∃ p, BestPeer m skipMap = Some p ∧ Number q ≤ Number p.
Proof.
  intros Hq. destruct (BestPeer m skipMap) as [p|] eqn:Hbest.
  - exists p. split; [done|]. by eapply BestPeer_highest.
  - apply BestPeer_None in Hbest. rewrite Hbest in Hq.
    by apply elem_of_nil in Hq.
Qed.

Lemma skipped_insert (skipMap : gmap string bool) id id' :
  skipped (<[id := true]> skipMap) id' =
  if decide (id = id') then true else skipped skipMap id'.
Proof.
  unfold skipped. rewrite lookup_insert. by case_decide.
Qed.

Lemma skipped_empty id : skipped ∅ id = false.
Proof. unfold skipped. by rewrite lookup_empty. Qed.

(** Skipping a candidate leaves strictly fewer candidates. *)
Lemma candidates_skip_lt (m : gmap string NoForkPeer) skipMap p :
  p ∈ candidates m skipMap →
  (length (candidates m (<[ID p := true]> skipMap)) < length (candidates m skipMap))%nat.
Proof.
  intros Hp. unfold candidates in *.
  rewrite <- (list_filter_filter_l
                (λ q, skipped (<[ID p := true]> skipMap) (ID q) = false)
                (λ q, skipped skipMap (ID q) = false)).
  - apply (length_filter_lt _ _ p); [done|].
    rewrite skipped_insert. by rewrite decide_True.
  - intros q. rewrite skipped_insert. by case_decide.
Qed.

Lemma candidates_length (m : gmap string NoForkPeer) skipMap :
  (length (candidates m skipMap) ≤ size m)%nat.
Proof.
  unfold candidates. etrans; [apply length_filter|].
  by rewrite length_fmap, length_map_to_list.
Qed.

(** In the table that holds one peer, that peer is the best one as long as
    it is not skipped. *)
Lemma BestPeer_single p skipMap :
  BestPeer (Put [p] ∅) skipMap =
  if skipped skipMap (ID p) then None else Some p.
Proof.
  unfold BestPeer, candidates, Put. simpl.
  rewrite insert_empty, map_to_list_singleton. simpl.
  rewrite filter_cons, filter_nil.
  destruct (skipped skipMap (ID p)); by simpl.
Qed.

(** ** Properties of the two modes *)

Section Modes.
Context {C K : Type} `{!Blockchain C} `{!SyncPeerClient K}.
Implicit Types (s : syncer C K) (cb : list Call → types.Block → bool).
Implicit Types (skipMap : gmap string bool) (p : NoForkPeer).

Lemma bulkSyncWithPeer_frame s id cb s' out :
  bulkSyncWithPeer s id cb = (s', out) →
  peerMap s' = peerMap s ∧ blockTimeout s' = blockTimeout s.
Proof.
  intros Hcall.
  destruct (bulkSyncWithPeer_cases s id cb)
    as [[_ Hr]|[(hd & k1 & e & _ & _ & Hr)
               |(hd & k1 & st & s2 & r & _ & _ & Hrun & Hr)]];
    rewrite Hcall in Hr; injection Hr as -> _; [done..|].
  apply pullLoop_frame in Hrun as (Hpm & _ & Hbt). simpl. by rewrite Hpm, Hbt.
Qed.

(** What a pass through the body of the loop of [BulkSync] that does not
    leave the loop has done. *)
Lemma bulkSyncIteration_next cb s l skipMap s1 l1 skipMap1 :
  bulkSyncIteration cb s l skipMap = (s1, BulkNext l1 skipMap1) →
  ∃ p, BestPeer (peerMap s) skipMap = Some p ∧
       l < Number p ∧
       skipMap1 = <[ID p := true]> skipMap ∧
       l1 = updateLocalLatest s1 l ∧
       peerMap s1 = peerMap s.
Proof.
  unfold bulkSyncIteration.
  destruct (BestPeer (peerMap s) skipMap) as [p|]; [|done].
  destruct (N.leb_spec (Number p) l) as [|Hlt]; [done|].
  destruct (bulkSyncWithPeer _ (ID p) cb) as [s2 [[[n t] err]|]] eqn:Hcall;
    [|done].
  apply bulkSyncWithPeer_frame in Hcall as [Hpm _].
  destruct (match err with None => _ | Some _ => _ end); [done|].
  intros [= <- <- <-]. by exists p.
Qed.

Lemma bulkSyncLoop_enough_fuel cb fuel : ∀ s l skipMap,
  (length (candidates (peerMap s) skipMap) < fuel)%nat →
  is_Some (bulkSyncLoop fuel cb s l skipMap).
Proof.
  induction fuel as [|fuel IH]; intros s l skipMap Hfuel; [lia|]. simpl.
  destruct (bulkSyncIteration cb s l skipMap) as [s1 [l1 skipMap1|exit]] eqn:Hit;
    [|by eexists].
  apply bulkSyncIteration_next in Hit as (p & Hbest & _ & -> & _ & Hpm).
  apply IH. rewrite Hpm.
  pose proof (candidates_skip_lt _ _ _ (BestPeer_candidate _ _ _ Hbest)). lia.
Qed.

(** Once the loop has ended within [fuel] passes, more fuel changes
    nothing. *)
Lemma bulkSyncLoop_more_fuel cb fuel : ∀ fuel' s l skipMap r,
  bulkSyncLoop fuel cb s l skipMap = Some r →
  (fuel ≤ fuel')%nat →
  bulkSyncLoop fuel' cb s l skipMap = Some r.
Proof.
  induction fuel as [|fuel IH]; intros fuel' s l skipMap r; [done|].
  destruct fuel' as [|fuel']; [lia|]. simpl.
  destruct (bulkSyncIteration cb s l skipMap) as [s1 [l1 skipMap1|exit]];
    [|done].
  intros Hloop Hle. apply IH; [done|lia].
Qed.

Lemma BulkSync_is_Some s cb : is_Some (BulkSync s cb).
Proof.
  unfold BulkSync.
  destruct (bulkSyncLoop_enough_fuel cb (S (size (peerMap s)))
              (record (CallStartProgression (uint64_add (updateLocalLatest s 0) 1))
                      (record CallSubscribeEvents s))
              (updateLocalLatest s 0) ∅) as [[[s2 skipMap2] exit] ->].
  - simpl. pose proof (candidates_length (peerMap s) ∅). lia.
  - by eexists.
Qed.

(** C8. The loop of [BulkSync] terminates. A pass through its body that
    does not leave the loop has selected a peer that was not on the skip
    list and has put it there, so that the table, which the pass does not
    change, has strictly fewer candidates left; a pass leaves the loop
    through the first [break] exactly when no candidate is left or the best
    one is not above the local height. Hence the loop is over after at most
    one pass per candidate and one more, and [BulkSync] returns. *)
Theorem BulkSync_terminates cb s l skipMap :
  (∀ s1 l1 skipMap1,
     bulkSyncIteration cb s l skipMap = (s1, BulkNext l1 skipMap1) →
     ∃ p, BestPeer (peerMap s) skipMap = Some p ∧
          skipped skipMap (ID p) = false ∧
          skipMap1 = <[ID p := true]> skipMap ∧
          skipped skipMap1 (ID p) = true ∧
          peerMap s1 = peerMap s ∧
          (length (candidates (peerMap s1) skipMap1)
           < length (candidates (peerMap s) skipMap))%nat) ∧
  (∀ s1, bulkSyncIteration cb s l skipMap = (s1, BulkLeave ExitNoCandidate) ↔
         s1 = s ∧
         (BestPeer (peerMap s) skipMap = None ∨
          ∃ p, BestPeer (peerMap s) skipMap = Some p ∧ Number p ≤ l)) ∧
  (∀ fuel, (length (candidates (peerMap s) skipMap) < fuel)%nat →
           ∃ r, bulkSyncLoop fuel cb s l skipMap = Some r ∧
                ∀ fuel', (fuel ≤ fuel')%nat →
                         bulkSyncLoop fuel' cb s l skipMap = Some r) ∧
  is_Some (BulkSync s cb).
Proof.
  split; [|split; [|split]].
  - intros s1 l1 skipMap1 Hit.
    apply bulkSyncIteration_next in Hit as (p & Hbest & _ & -> & _ & Hpm).
    pose proof (BestPeer_candidate _ _ _ Hbest) as Hcand.
    exists p. split; [done|].
    split; [by apply elem_of_candidates in Hcand as [? _]|].
    split; [done|].
    split; [by rewrite skipped_insert, decide_True|].
    split; [done|]. rewrite Hpm. by apply candidates_skip_lt.
  - intros s1. unfold bulkSyncIteration.
    destruct (BestPeer (peerMap s) skipMap) as [p|].
    + destruct (N.leb_spec (Number p) l) as [Hle|Hlt].
      * split; [intros [= <-]; split; [done|right; by exists p]|by intros [-> _]].
      * destruct (bulkSyncWithPeer _ (ID p) cb) as [s2 [[[n t] err]|]].
        -- destruct (match err with None => _ | Some _ => _ end);
             (split; [done|]); intros [_ [[=]|(q & [= <-] & Hq)]]; lia.
        -- split; [done|]. intros [_ [[=]|(q & [= <-] & Hq)]]; lia.
    + split; [intros [= <-]; split; [done|by left]|by intros [-> _]].
  - intros fuel Hfuel.
    destruct (bulkSyncLoop_enough_fuel cb fuel s l skipMap Hfuel) as [r Hr].
    exists r. split; [done|]. intros fuel'. by apply bulkSyncLoop_more_fuel.
  - apply BulkSync_is_Some.
Qed.

(** *** Catching up with a peer *)

Lemma accepts_consumes cb (blocks : list types.Block) : ∀ s l f c',
  accepts (blockchain s) blocks c' →
  ∃ s' f', consumes cb s l f blocks s' (lastHeight l (nonzero blocks)) f' ∧
           blockchain s' = c'.
Proof.
  unfold consumes, nonzero.
  induction blocks as [|b blocks IH]; intros s l f c'; simpl.
  - intros ->. by exists s, f.
  - rewrite filter_cons.
    destruct (N.eqb_spec (types.Block_Number b) 0) as [Hz|Hnz].
    { rewrite decide_False by (intros ?; done). apply IH. }
    rewrite decide_True by done.
    intros (Hv & c1 & Hw & _ & Hrest). rewrite Hv, Hw, lastHeight_cons.
    by apply IH.
Qed.

Lemma accepts_nothing (blocks : list types.Block) : ∀ (c c' : C),
  nonzero blocks = [] → accepts c blocks c' → c' = c.
Proof.
  unfold nonzero. induction blocks as [|b blocks IH]; intros c c'; simpl; [done|].
  rewrite filter_cons.
  destruct (N.eqb_spec (types.Block_Number b) 0) as [Hz|Hnz].
  - rewrite decide_False by (intros ?; done). apply IH.
  - by rewrite decide_True.
Qed.

(** After the chain has accepted the blocks, its head is the last of them. *)
Lemma accepts_head (blocks : list types.Block) : ∀ (c c' : C) b,
  accepts c blocks c' →
  last (nonzero blocks) = Some b →
  Header c' = Some (types.header b).
Proof.
  induction blocks as [|b0 blocks IH]; intros c c' b; simpl; [done|].
  unfold nonzero in *. rewrite filter_cons.
  destruct (N.eqb_spec (types.Block_Number b0) 0) as [Hz|Hnz].
  { rewrite decide_False by (intros ?; done). apply IH. }
  rewrite decide_True by done.
  intros (_ & c1 & _ & Hhead & Hrest). rewrite last_cons.
  destruct (last (filter _ blocks)) as [b1|] eqn:Hlast.
  - intros [= ->]. by eapply IH.
  - intros [= ->]. apply last_None in Hlast.
    by rewrite (accepts_nothing _ _ _ Hlast Hrest).
Qed.

Lemma consecutive_nonzero (blocks : list types.Block) : ∀ from,
  0 < from → consecutive from blocks → nonzero blocks = blocks.
Proof.
  unfold nonzero. induction blocks as [|b blocks IH]; intros from Hpos; simpl;
    [done|].
  intros [Hb Hrest]. rewrite filter_cons, decide_True by lia.
  f_equal. apply (IH (from + 1)); [lia|done].
Qed.

Lemma consecutive_last (blocks : list types.Block) : ∀ from b,
  consecutive from blocks →
  last blocks = Some b →
  types.Block_Number b + 1 = from + N.of_nat (length blocks).
Proof.
  induction blocks as [|b0 blocks IH]; intros from b; simpl; [done|].
  intros [Hb Hrest]. rewrite last_cons.
  destruct (last blocks) as [b1|] eqn:Hlast.
  - intros [= ->]. rewrite (IH _ _ Hrest eq_refl). lia.
  - intros [= ->]. apply last_None in Hlast as ->. simpl. lia.
Qed.

Lemma consecutive_heights (blocks : list types.Block) : ∀ from,
  consecutive from blocks →
  types.Block_Number <$> blocks
    = (λ i, from + N.of_nat i) <$> seq 0 (length blocks).
Proof.
  induction blocks as [|b blocks IH]; intros from; [done|].
  intros [Hb Hrest]. cbn [length seq]. rewrite !fmap_cons.
  f_equal; [lia|].
  rewrite (IH _ Hrest), <- fmap_S_seq, <- list_fmap_compose.
  apply list_fmap_ext. intros _ i _. simpl. lia.
Qed.

Lemma bulkSyncIteration_fully cb s l skipMap p s2 n t :
  BestPeer (peerMap s) skipMap = Some p →
  l < Number p →
  bulkSyncWithPeer (record (CallUpdateHighestProgression (Number p)) s)
                   (ID p) cb = (s2, Returns (n, t, None)) →
  Number p ≤ n →
  bulkSyncIteration cb s l skipMap = (s2, BulkLeave ExitFullySynced).
Proof.
  intros Hbest Hlt Hcall Hn. unfold bulkSyncIteration. rewrite Hbest.
  destruct (N.leb_spec (Number p) l); [lia|]. rewrite Hcall.
  by destruct (N.leb_spec (Number p) n); [|lia].
Qed.

(** C1. The local head is at [L = Number hd], the best peer of the table
    (the only one, when the table holds a single peer) advertises
    [H = Number p > L], and its stream delivers the [H - L] blocks numbered
    [L+1 .. H] and is then closed; the chain accepts each of them. Then
    [BulkSync] returns nil, the head of the chain is at [H], the callback was
    invoked on exactly these blocks, in this order, and the loop was left in
    its first pass through the [break] taken when the pull succeeded and
    reached the advertised height, with nobody on the skip list. *)
Theorem BulkSync_catches_up s cb hd p k1 blocks c' :
  Header (blockchain s) = Some hd →
  BestPeer (peerMap s) ∅ = Some p →
  types.Number hd < Number p →
  GetBlocks (syncPeerClient s) (ID p) (uint64_add (types.Number hd) 1)
            (blockTimeout s) = (k1, inr (mkStream blocks ChannelClosed)) →
  consecutive (types.Number hd + 1) blocks →
  N.of_nat (length blocks) = Number p - types.Number hd →
  accepts (blockchain s) blocks c' →
  ∃ s' hd',
    BulkSync s cb = Some (s', Returns None) ∧
    blockchain s' = c' ∧
    Header c' = Some hd' ∧ types.Number hd' = Number p ∧
    callbackBlocks (calls s') = callbackBlocks (calls s) ++ blocks ∧
    types.Block_Number <$> blocks
      = (λ i, types.Number hd + 1 + N.of_nat i) <$> seq 0 (length blocks) ∧
    ∀ fuel, ∃ s2,
      bulkSyncLoop (S fuel) cb (started s) (types.Number hd) ∅
        = Some (s2, ∅, ExitFullySynced).
Proof.
  intros Hh Hbest Hlt Hg Hcons Hlen Hacc.
  assert (nonzero blocks = blocks) as Hnz
    by (apply (consecutive_nonzero _ (types.Number hd + 1)); [lia|done]).
  destruct (last blocks) as [bl|] eqn:Hlast;
    [|apply last_None in Hlast as ->; simpl in Hlen; lia].
  pose proof (consecutive_last _ _ _ Hcons Hlast) as Hbl.
  set (s1 := record (CallUpdateHighestProgression (Number p)) (started s)).
  destruct (accepts_consumes cb blocks
              (opened s1 (ID p) (uint64_add (types.Number hd) 1) k1) 0 false c')
    as (s2 & f' & Hrun & Hchain); [done|].
  rewrite Hnz in Hrun.
  assert (lastHeight 0 blocks = Number p) as Hreached.
  { unfold lastHeight. rewrite fmap_last, Hlast. simpl. lia. }
  rewrite Hreached in Hrun.
  assert (bulkSyncWithPeer s1 (ID p) cb
          = (closed s2 (ID p), Returns (Number p, f', None))) as Hcall.
  { by apply (bulkSyncWithPeer_opened s1 (ID p) cb hd k1
                (mkStream blocks ChannelClosed)). }
  assert (bulkSyncIteration cb (started s) (types.Number hd) ∅
          = (closed s2 (ID p), BulkLeave ExitFullySynced)) as Hit.
  { by apply (bulkSyncIteration_fully _ _ _ _ p _ (Number p) f'). }
  exists (record CallStopProgression (closed s2 (ID p))), (types.header bl).
  split.
  { unfold BulkSync, updateLocalLatest. rewrite Hh. simpl.
    unfold started, updateLocalLatest in Hit. rewrite Hh in Hit.
    by rewrite Hit. }
  split; [done|].
  split; [apply (accepts_head _ _ _ _ Hacc); by rewrite Hnz|].
  split; [unfold types.Block_Number in Hbl; lia|].
  split.
  { apply consumes_log in Hrun as (new & Hcalls & Hcb & _).
    simpl. rewrite Hcalls. unfold callbackBlocks in *. simpl.
    rewrite !omap_app, Hcb, Hnz. simpl. by rewrite !app_nil_r. }
  split.
  { rewrite (consecutive_heights _ _ Hcons). apply list_fmap_ext.
    intros _ i _. lia. }
  intros fuel. exists (closed s2 (ID p)). simpl. by rewrite Hit.
Qed.

(** *** WatchSync *)

Lemma watchSyncIteration_break cb s l skipMap s1 :
  watchSyncIteration cb s l skipMap = (s1, StepBreak) ↔
  ∃ p n, BestPeer (peerMap s) skipMap = Some p ∧
         updateLocalLatest s l < Number p ∧
         bulkSyncWithPeer s (ID p) cb = (s1, Returns (n, true, None)) ∧
         Number p ≤ n.
Proof.
  unfold watchSyncIteration. split.
  - destruct (BestPeer (peerMap s) skipMap) as [p|]; [|done].
    destruct (N.leb_spec (Number p) (updateLocalLatest s l)); [done|].
    destruct (bulkSyncWithPeer s (ID p) cb) as [s2 [[[n t] [err|]]|]] eqn:Hcall;
      [done| |done].
    destruct (N.ltb_spec n (Number p)); [done|].
    destruct t; [|done]. intros [= <-]. by exists p, n.
  - intros (p & n & -> & Hlt & -> & Hn).
    destruct (N.leb_spec (Number p) (updateLocalLatest s l)); [lia|].
    by destruct (N.ltb_spec n (Number p)); [lia|].
Qed.

Lemma watchSyncLoop_returned cb wakeups : ∀ s l skipMap s' e,
  watchSyncLoop cb wakeups s l skipMap = (s', WatchReturned e) →
  e = None ∧
  ∃ table s0 l0 skipMap0,
    table ∈ wakeups ∧ peerMap s0 = table ∧
    watchSyncIteration cb s0 l0 skipMap0 = (s', StepBreak).
Proof.
  induction wakeups as [|table later IH]; intros s l skipMap s' e; simpl;
    [done|].
  destruct (watchSyncIteration cb (set_peerMap table s) l skipMap)
    as [s1 [l1 skipMap1| |]] eqn:Hit.
  - intros Hloop. apply IH in Hloop as (-> & table' & s0 & l0 & skipMap0 & Hin & ?).
    split; [done|]. exists table', s0, l0, skipMap0. split; [by right|done].
  - intros [= <- <-]. split; [done|].
    exists table, (set_peerMap table s), l, skipMap. split; [by left|done].
  - done.
Qed.

(** C6. In a pass through the body of the loop of [WatchSync] that pulls
    from a peer: when the pull returns an error, or a height below the one
    the peer advertised, the peer is put on the skip list and the mode waits
    for the next wake-up. The pass ends at [break] exactly when the pull
    returned no error, a height not below the advertised one, and the
    terminate flag; and [WatchSync] returns, and returns nil, only after
    such a pass, in which the last answer of the callback was to
    terminate. *)
Theorem WatchSync_skips_or_exits cb s l skipMap :
  (∀ p s1 n t err,
     BestPeer (peerMap s) skipMap = Some p →
     updateLocalLatest s l < Number p →
     bulkSyncWithPeer s (ID p) cb = (s1, Returns (n, t, err)) →
     err ≠ None ∨ n < Number p →
     watchSyncIteration cb s l skipMap
       = (s1, StepWait (updateLocalLatest s l) (<[ID p := true]> skipMap))) ∧
  (∀ s1, watchSyncIteration cb s l skipMap = (s1, StepBreak) ↔
         ∃ p n, BestPeer (peerMap s) skipMap = Some p ∧
                updateLocalLatest s l < Number p ∧
                bulkSyncWithPeer s (ID p) cb = (s1, Returns (n, true, None)) ∧
                Number p ≤ n) ∧
  (∀ wakeups s' e,
     WatchSync s cb wakeups = (s', WatchReturned e) →
     e = None ∧
     ∃ table s0 skipMap0 p n new,
       table ∈ wakeups ∧ peerMap s0 = table ∧
       BestPeer table skipMap0 = Some p ∧
       bulkSyncWithPeer s0 (ID p) cb = (s', Returns (n, true, None)) ∧
       Number p ≤ n ∧
       calls s' = calls s0 ++ new ∧ lastCallbackResult new = true).
Proof.
  split; [|split].
  - intros p s1 n t err Hbest Hlt Hcall Hfail.
    unfold watchSyncIteration. rewrite Hbest.
    destruct (N.leb_spec (Number p) (updateLocalLatest s l)); [lia|].
    rewrite Hcall. destruct err as [e|]; [done|].
    destruct Hfail as [|Hn]; [done|].
    by destruct (N.ltb_spec n (Number p)); [|lia].
  - intros s1. apply watchSyncIteration_break.
  - intros wakeups s' e. unfold WatchSync.
    destruct (Header (blockchain s)) as [hd|]; [|done].
    intros Hloop.
    apply watchSyncLoop_returned
      in Hloop as (-> & table & s0 & l0 & skipMap0 & Hin & Hpm & Hit).
    apply watchSyncIteration_break in Hit as (p & n & Hbest & _ & Hcall & Hn).
    destruct (bulkSyncWithPeer_success _ _ _ _ _ _ Hcall)
      as (new & Hcalls & Hflag & _).
    split; [done|]. exists table, s0, skipMap0, p, n, new.
    rewrite Hpm in Hbest. by repeat split.
Qed.

(** C7. In a wake-up of [WatchSync] where no peer of the table is left
    outside the skip list, the pass pulls from nobody, empties the skip list
    and the mode waits for the next wake-up, which selects with the empty
    skip list: every peer of the table it sees, skipped before or not, is
    then a candidate, so that one is selected and none above it is passed
    over. A table that holds one peer, which was on the skip list, gives
    that peer again. *)
Theorem WatchSync_resets_skip_list cb s l skipMap table :
  BestPeer table skipMap = None →
  watchSyncIteration cb (set_peerMap table s) l skipMap
    = (set_peerMap table s, StepWait (updateLocalLatest s l) ∅) ∧
  (∀ later,
     watchSyncLoop cb (table :: later) s l skipMap
       = watchSyncLoop cb later (set_peerMap table s) (updateLocalLatest s l) ∅) ∧
  (∀ (table' : gmap string NoForkPeer) k q,
     table' !! k = Some q →
     ∃ p, BestPeer table' ∅ = Some p ∧ Number q ≤ Number p) ∧
  (∀ q, skipped skipMap (ID q) = true →
        BestPeer (Put [q] ∅) skipMap = None ∧ BestPeer (Put [q] ∅) ∅ = Some q).
Proof.
  intros Hnone.
  assert (watchSyncIteration cb (set_peerMap table s) l skipMap
          = (set_peerMap table s, StepWait (updateLocalLatest s l) ∅)) as Hit.
  { unfold watchSyncIteration. simpl. by rewrite Hnone. }
  split; [done|]. split; [|split].
  - intros later. simpl. by rewrite Hit.
  - intros table' k q Hq. apply BestPeer_is_Some, elem_of_candidates.
    split; [apply skipped_empty|by exists k].
  - intros q Hq. rewrite !BestPeer_single, Hq. by rewrite skipped_empty.
Qed.

(** *** The head is unknown *)

(** C10. [Header] may be nil. Then [bulkSyncWithPeer] and [WatchSync]
    panic at their first statement, and [HasSyncPeer] panics as soon as the
    table has a peer (with an empty table it does not reach the
    dereference). [BulkSync] itself reads the header only behind a nil
    check: its local height stays 0, and it returns nil when no peer
    advertises more than 0; when one does, it calls [bulkSyncWithPeer],
    which panics. *)
Theorem nil_header_dereferenced s cb :
  Header (blockchain s) = None →
  (∀ id, bulkSyncWithPeer s id cb = (s, Panics)) ∧
  (∀ wakeups, WatchSync s cb wakeups = (s, WatchPanicked)) ∧
  (∀ p, BestPeer (peerMap s) ∅ = Some p → HasSyncPeer s = Panics) ∧
  (BestPeer (peerMap s) ∅ = None → HasSyncPeer s = Returns false) ∧
  updateLocalLatest s 0 = 0 ∧
  ((BestPeer (peerMap s) ∅ = None ∨
    ∃ p, BestPeer (peerMap s) ∅ = Some p ∧ Number p = 0) →
   BulkSync s cb = Some (record CallStopProgression (started s), Returns None)) ∧
  (∀ p, BestPeer (peerMap s) ∅ = Some p → 0 < Number p →
        BulkSync s cb
          = Some (record CallStopProgression
                    (record (CallUpdateHighestProgression (Number p)) (started s)),
                  Panics)).
Proof.
  intros Hnil.
  assert (updateLocalLatest s 0 = 0) as Hl.
  { unfold updateLocalLatest. by rewrite Hnil. }
  split; [intros id; by apply bulkSyncWithPeer_nil_header|].
  split; [intros wakeups; unfold WatchSync; by rewrite Hnil|].
  split; [intros p Hbest; unfold HasSyncPeer; by rewrite Hbest, Hnil|].
  split; [intros Hbest; unfold HasSyncPeer; by rewrite Hbest|].
  split; [done|]. split.
  - intros Hbest. unfold BulkSync. rewrite Hl. simpl.
    unfold bulkSyncIteration. simpl.
    destruct Hbest as [->|(p & -> & ->)]; simpl; unfold started; by rewrite Hl.
  - intros p Hbest Hpos. unfold BulkSync. rewrite Hl. simpl.
    unfold bulkSyncIteration. simpl. rewrite Hbest.
    destruct (N.leb_spec (Number p) 0); [lia|].
    rewrite bulkSyncWithPeer_nil_header by done.
    unfold started. by rewrite Hl.
Qed.

End Modes.

(** ** The scenarios, run *)

(** The single peer streams blocks 3, 4, 5 to a node at 2. *)
Lemma BulkSync_catches_up_witness :
  types.Number (types.mkHeader 2 2) < Number (mkPeer "p" 5) ∧
  consecutive 3 [block 3; block 4; block 5] ∧
  ∃ s', BulkSync singlePeerAhead neverTerminate = Some (s', Returns None) ∧
        Header (blockchain s') = Some (types.mkHeader 5 5) ∧
        callbackBlocks (calls s') = [block 3; block 4; block 5].
Proof.
  split; [reflexivity|]. split; [by repeat split|].
  destruct (BulkSync_catches_up singlePeerAhead neverTerminate
              (types.mkHeader 2 2) (mkPeer "p" 5) (mkClient [])
              [block 3; block 4; block 5]
              (mkChain (Some (types.mkHeader 5 5))
                       [block 3; block 4; block 5] [] []))
    as (s' & hd' & Hret & Hchain & Hhead & Hnum & Hcb & _).
  - reflexivity.
  - vm_compute. reflexivity.
  - reflexivity.
  - reflexivity.
  - by repeat split.
  - reflexivity.
  - simpl. repeat (split; [reflexivity|]; eexists; split; [reflexivity|];
                   split; [reflexivity|]). reflexivity.
  - exists s'. split; [exact Hret|]. rewrite Hchain. split; [reflexivity|].
    exact Hcb.
Defined.

(** With a callback that always asks to terminate, the flag returned is the
    last answer and all three blocks were applied. *)
Lemma shouldTerminate_flag_witness :
  ∃ new,
    calls (bulkSyncWithPeer singlePeerAhead "p" alwaysTerminate).1
      = calls singlePeerAhead ++ new ∧
    lastCallbackResult new = true ∧
    callbackBlocks new = [block 3; block 4; block 5].
Proof.
  destruct (shouldTerminate_flag singlePeerAhead "p" alwaysTerminate
              (bulkSyncWithPeer singlePeerAhead "p" alwaysTerminate).1
              5 true None)
    as (new & Hcalls & Hflag & _ & Hall).
  - vm_compute. reflexivity.
  - exists new. split; [exact Hcalls|]. split.
    + symmetry. apply Hflag. by left.
    + apply (Hall (types.mkHeader 2 2) (mkClient [])
                  (mkStream [block 3; block 4; block 5] ChannelClosed));
        [reflexivity|reflexivity|by left].
Defined.

(** The claim as first stated fails here: the callback answered [true] on
    block 1, block 2 did not verify, and the flag returned is [false]. *)
Lemma shouldTerminate_flag_counterexample :
  (bulkSyncWithPeer secondBlockInvalid "p" alwaysTerminate).2
    = Returns (1, false,
               Some (fmt_Errorf "unable to verify block, %w"
                                (errors_New "invalid block"))) ∧
  callbackResults
    (calls (bulkSyncWithPeer secondBlockInvalid "p" alwaysTerminate).1) = [true] ∧
  lastCallbackResult
    (calls (bulkSyncWithPeer secondBlockInvalid "p" alwaysTerminate).1) = true.
Proof. vm_compute. by repeat split. Qed.

(** A block of height 0 between blocks 3 and 4. *)
Lemma zero_height_block_rearms_timer_witness :
  types.Block_Number (block 0) = 0 ∧
  pullLoop neverTerminate zeroInTheMiddle 0 false
           [block 3; block 0; block 4] ChannelClosed
    = pullLoop neverTerminate zeroInTheMiddle 0 false
               [block 3; block 4] ChannelClosed.
Proof.
  split; [reflexivity|].
  exact (proj1 (proj2 (zero_height_block_rearms_timer neverTerminate
                         zeroInTheMiddle 0 false [block 3] (block 0) [block 4]
                         ChannelClosed eq_refl))).
Defined.

(** The claim as first stated fails here. The idle timeout is 10 and the
    loop starts waiting at time 0. Block 1, ready at time 12, comes too late:
    the pull returns [errTimeout] and nothing is applied. With a block of
    height 0 received at time 6 the timer is armed again, block 1 is within
    its reach and is applied, and the pull returns without error: the block
    of height 0 has reset the idle timeout. *)
Lemma zero_height_block_rearms_timer_counterexample :
  types.Block_Number (block 0) = 0 ∧
  (bulkSyncWithPeer lateBlockAlone "p" neverTerminate).2
    = Returns (0, false, Some errTimeout) ∧
  callbackBlocks (calls (bulkSyncWithPeer lateBlockAlone "p" neverTerminate).1)
    = [] ∧
  (bulkSyncWithPeer zeroBlockBeforeLateBlock "p" neverTerminate).2
    = Returns (1, false, None) ∧
  callbackBlocks
    (calls (bulkSyncWithPeer zeroBlockBeforeLateBlock "p" neverTerminate).1)
    = [block 1].
Proof. vm_compute. by repeat split. Qed.

(** The peer stalls after blocks 3 and 4. *)
Lemma timeout_returns_last_applied_witness :
  (bulkSyncWithPeer stallAfterTwo "p" neverTerminate).2
    = Returns (4, false, Some errTimeout) ∧
  highestHeight (nonzero [block 3; block 4]) = 4.
Proof.
  destruct (timeout_returns_last_applied stallAfterTwo "p" neverTerminate
              (types.mkHeader 2 2) (mkClient []) [block 3; block 4]
              (pullLoop neverTerminate
                 (opened stallAfterTwo "p" 3 (mkClient [])) 0 false
                 [block 3; block 4] ChannelClosed).1
              4 false)
    as (_ & Hret & _ & _ & Hhighest).
  - reflexivity.
  - reflexivity.
  - vm_compute. reflexivity.
  - split; [by rewrite Hret|]. symmetry. apply Hhighest.
    vm_compute. repeat constructor; by vm_compute.
Defined.

(** The claim as first stated fails here: blocks 5 and 3 were applied, in
    this order, before the timeout; the height returned is 3, not 5. *)
Lemma timeout_returns_last_applied_counterexample :
  (bulkSyncWithPeer staleBlockThenStall "p" neverTerminate).2
    = Returns (3, false, Some errTimeout) ∧
  callbackBlocks
    (calls (bulkSyncWithPeer staleBlockThenStall "p" neverTerminate).1)
    = [block 5; block 3] ∧
  highestHeight
    (callbackBlocks
       (calls (bulkSyncWithPeer staleBlockThenStall "p" neverTerminate).1)) = 5.
Proof. vm_compute. by repeat split. Qed.

(** C5. The run the claim does not survive: the head is unknown, a peer
    advertises 5, and [BulkSync] does not return nil: it panics, as
    [bulkSyncWithPeer] dereferences the nil header that [updateLocalLatest]
    has just guarded against. *)
Theorem BulkSync_panics_on_nil_header :
  Header (blockchain headUnknown) = None ∧
  snd <$> BulkSync headUnknown neverTerminate = Some Panics.
Proof. vm_compute. by split. Qed.

(** The only peer of the table is on the skip list. *)
Lemma WatchSync_resets_skip_list_witness :
  BestPeer onlyPeerTable onlyPeerSkipped = None ∧
  watchSyncIteration neverTerminate (set_peerMap onlyPeerTable singlePeerAhead)
                     2 onlyPeerSkipped
    = (set_peerMap onlyPeerTable singlePeerAhead, StepWait 2 ∅) ∧
  BestPeer onlyPeerTable ∅ = Some (mkPeer "p" 5).
Proof.
  assert (BestPeer onlyPeerTable onlyPeerSkipped = None) as Hnone
    by (vm_compute; reflexivity).
  split; [exact Hnone|].
  destruct (WatchSync_resets_skip_list neverTerminate singlePeerAhead 2
              onlyPeerSkipped onlyPeerTable Hnone) as (Hit & _ & _ & Hagain).
  split; [exact Hit|].
  apply (Hagain (mkPeer "p" 5)). vm_compute. reflexivity.
Defined.

(** Block 2 does not verify after block 1 was applied. *)
Lemma verify_or_commit_failure_aborts_witness :
  types.Block_Number (block 2) ≠ 0 ∧
  ∃ sf, bulkSyncWithPeer secondBlockInvalid "p" alwaysTerminate
          = (sf, Returns (1, false,
                          Some (fmt_Errorf "unable to verify block, %w"
                                           (errors_New "invalid block")))) ∧
        written (blockchain sf) = [block 1].
Proof.
  assert (types.Block_Number (block 2) ≠ 0) as Hnz by (vm_compute; discriminate).
  split; [exact Hnz|].
  destruct (verify_or_commit_failure_aborts secondBlockInvalid "p" alwaysTerminate
              (types.mkHeader 0 0) (mkClient []) [block 1] (block 2) []
              ChannelClosed
              (pullLoop alwaysTerminate
                        (opened secondBlockInvalid "p" 1 (mkClient []))
                        0 false [block 1] ChannelClosed).1
              1 true)
    as (_ & _ & Hverify & _).
  - reflexivity.
  - reflexivity.
  - vm_compute. reflexivity.
  - exact Hnz.
  - destruct (Hverify (errors_New "invalid block")) as (sf & Hrun & Hchain & _).
    + reflexivity.
    + exists sf. split; [exact Hrun|]. rewrite Hchain. reflexivity.
Defined.

(** The head is unknown and a peer advertises 5. *)
Lemma nil_header_dereferenced_witness :
  Header (blockchain headUnknown) = None ∧
  HasSyncPeer headUnknown = Panics ∧
  snd <$> BulkSync headUnknown neverTerminate = Some Panics.
Proof.
  assert (Header (blockchain headUnknown) = None) as Hnil by reflexivity.
  split; [exact Hnil|].
  destruct (nil_header_dereferenced headUnknown neverTerminate Hnil)
    as (_ & _ & Hhas & _ & _ & _ & Hbulk).
  split.
  - apply (Hhas (mkPeer "p" 5)). vm_compute. reflexivity.
  - rewrite (Hbulk (mkPeer "p" 5)); [reflexivity|vm_compute; reflexivity|reflexivity].
Defined.

(** [WatchSync] on one wake-up: with a callback that asks to terminate it
    returns nil after the pull; with one that does not, and with a peer that
    stalls, it is waiting again, the stalled peer on the skip list. *)
Example WatchSync_returns_on_terminate :
  (WatchSync singlePeerAhead alwaysTerminate [peerMap singlePeerAhead]).2
    = WatchReturned None.
Proof. vm_compute. reflexivity. Qed.

Example WatchSync_keeps_waiting :
  (WatchSync singlePeerAhead neverTerminate [peerMap singlePeerAhead]).2
    = WatchWaiting 2 ∅.
Proof. vm_compute. reflexivity. Qed.

Example WatchSync_skips_stalled_peer :
  (WatchSync stallAfterTwo neverTerminate [Put [mkPeer "p" 5] ∅]).2
    = WatchWaiting 2 (<["p" := true]> ∅).
Proof. vm_compute. reflexivity. Qed.

(** [BulkSync] with an unreachable best peer: the second peer is pulled
    from after it. *)
Example BulkSync_tries_next_peer :
  (λ r, omap (λ c, match c with CallGetBlocks id _ _ => Some id | _ => None end)
             (calls r.1))
    <$> BulkSync bestPeerUnreachable neverTerminate
    = Some ["q"; "p"].
Proof. vm_compute. reflexivity. Qed.

(** ** Further properties: what the calls do, in which order *)

Section Traces.
Context {C K : Type} `{!Blockchain C} `{!SyncPeerClient K}.
Implicit Types (s : syncer C K) (cb : list Call → types.Block → bool).
Implicit Types (skipMap : gmap string bool) (new mid : list Call).

Lemma writeAll_app (c : C) (bs1 bs2 : list types.Block) :
  writeAll c (bs1 ++ bs2) = writeAll (writeAll c bs1) bs2.
Proof. apply foldl_app. Qed.

Lemma writeCalls_app (l1 l2 : list Call) :
  writeCalls (l1 ++ l2) = writeCalls l1 ++ writeCalls l2.
Proof. apply omap_app. Qed.

Lemma progressionCalls_app (l1 l2 : list Call) :
  progressionCalls (l1 ++ l2) = progressionCalls l1 ++ progressionCalls l2.
Proof. apply omap_app. Qed.

Lemma pulledPeers_app (l1 l2 : list Call) :
  pulledPeers (l1 ++ l2) = pulledPeers l1 ++ pulledPeers l2.
Proof. apply omap_app. Qed.

Lemma streamCalls_app (l1 l2 : list Call) :
  streamCalls (l1 ++ l2) = streamCalls l1 ++ streamCalls l2.
Proof. apply omap_app. Qed.

(** What one run of the pull loop logs and does to the chain. *)
Lemma pullLoop_trace cb (blocks : list types.Block) e : ∀ s l f s' r,
  pullLoop cb s l f blocks e = (s', r) →
  ∃ new,
    calls s' = calls s ++ new ∧
    callbackBlocks new `prefix_of` writeCalls new ∧
    writeCalls new `prefix_of` verifyCalls new ∧
    verifyCalls new `prefix_of` nonzero blocks ∧
    (length (verifyCalls new) ≤ S (length (callbackBlocks new)))%nat ∧
    blockchain s' = writeAll (blockchain s) (writeCalls new) ∧
    streamCalls new = [] ∧ progressionCalls new = [] ∧ pulledPeers new = [].
Proof.
  induction blocks as [|b blocks IH]; intros s l f s' r; simpl.
  - intros Hrun. exists []. rewrite app_nil_r.
    assert (s' = s) as -> by (destruct e; by injection Hrun).
    repeat split; auto using prefix_nil.
  - unfold nonzero. rewrite filter_cons.
    destruct (N.eqb_spec (types.Block_Number b) 0) as [Hz|Hnz].
    { rewrite decide_False by (intros ?; done). apply IH. }
    rewrite decide_True by done.
    destruct (VerifyFinalizedBlock _ b) as [verr|] eqn:Hv.
    { intros [= <- _]. exists [CallVerifyFinalizedBlock b]. simpl.
      repeat split; auto using prefix_nil, prefix_cons. }
    destruct (WriteBlock _ b) as [c1 [werr|]] eqn:Hw.
    { intros [= <- _]. exists [CallVerifyFinalizedBlock b; CallWriteBlock b].
      simpl. rewrite <- app_assoc.
      repeat split; auto using prefix_nil, prefix_cons.
      unfold writeAll. simpl. by rewrite Hw. }
    intros Hrun.
    apply IH in Hrun
      as (new & Hcalls & Hcw & Hwv & Hvs & Hlen & Hchain & Hst & Hpr & Hpp).
    simpl in Hcalls. rewrite <- !app_assoc in Hcalls. simpl in Hcalls.
    eexists. split; [exact Hcalls|]. simpl.
    repeat split; auto using prefix_cons; [lia|].
    rewrite Hchain. unfold writeAll. simpl. by rewrite Hw.
Qed.

(** What one call of [bulkSyncWithPeer] logs and does to the chain. *)
Lemma bulkSyncWithPeer_trace s p cb s' out :
  bulkSyncWithPeer s p cb = (s', out) →
  ∃ new,
    calls s' = calls s ++ new ∧
    blockchain s' = writeAll (blockchain s) (writeCalls new) ∧
    progressionCalls new = [] ∧
    match out with
    | Panics => new = [] ∧ Header (blockchain s) = None
    | Returns _ =>
        pulledPeers new = [p] ∧
        ∃ hd more,
          Header (blockchain s) = Some hd ∧
          new = CallGetBlocks p (uint64_add (types.Number hd) 1) (blockTimeout s)
                  :: more
    end.
Proof.
  intros Hcall.
  destruct (bulkSyncWithPeer_cases s p cb)
    as [[Hh Hr]|[(hd & k1 & err & Hh & _ & Hr)
                |(hd & k1 & st & s2 & r & Hh & _ & Hrun & Hr)]];
    rewrite Hcall in Hr; injection Hr as -> ->.
  - exists []. by rewrite app_nil_r.
  - eexists. split; [reflexivity|]. repeat split. by exists hd, [].
  - apply pullLoop_trace
      in Hrun as (new & Hcalls & _ & _ & _ & _ & Hchain & _ & Hpr & Hpp).
    exists (CallGetBlocks p (uint64_add (types.Number hd) 1) (blockTimeout s)
              :: new ++ [CallCloseStream p]).
    split. { simpl. rewrite Hcalls. simpl. by rewrite <- !app_assoc. }
    split. { simpl. by rewrite Hchain, writeCalls_app, app_nil_r. }
    split. { simpl. by rewrite progressionCalls_app, Hpr. }
    split. { simpl. by rewrite pulledPeers_app, Hpp. }
    by exists hd, (new ++ [CallCloseStream p]).
Qed.

(** X1. [bulkSyncWithPeer] closes the stream it opened, once and as its last
    call, whichever way the loop ends (channel closed, timeout, a block that
    does not verify or cannot be written). When [GetBlocks] fails, the
    deferred [CloseStream] is not yet registered and no stream is closed;
    when the header is nil, nothing is called at all. *)
Theorem bulkSyncWithPeer_closes_its_stream s p cb :
  ∃ new,
    calls (bulkSyncWithPeer s p cb).1 = calls s ++ new ∧
    match Header (blockchain s) with
    | None => (bulkSyncWithPeer s p cb).2 = Panics ∧ new = []
    | Some hd =>
        let from := uint64_add (types.Number hd) 1 in
        match (GetBlocks (syncPeerClient s) p from (blockTimeout s)).2 with
        | inl err =>
            (bulkSyncWithPeer s p cb).2 = Returns (0, false, Some err) ∧
            new = [CallGetBlocks p from (blockTimeout s)]
        | inr st =>
            ∃ mid r,
              (bulkSyncWithPeer s p cb).2 = Returns r ∧
              new = CallGetBlocks p from (blockTimeout s)
                      :: mid ++ [CallCloseStream p] ∧
              streamCalls mid = []
        end
    end.
Proof.
  destruct (bulkSyncWithPeer_cases s p cb)
    as [[Hh Hr]|[(hd & k1 & err & Hh & Hg & Hr)
                |(hd & k1 & st & s2 & r & Hh & Hg & Hrun & Hr)]];
    rewrite Hr, Hh; simpl.
  - exists []. by rewrite app_nil_r.
  - rewrite Hg. simpl. by eexists.
  - rewrite Hg. simpl.
    apply pullLoop_trace in Hrun as (mid & Hcalls & _ & _ & _ & _ & _ & Hst & _).
    exists (CallGetBlocks p (uint64_add (types.Number hd) 1) (blockTimeout s)
              :: mid ++ [CallCloseStream p]).
    split. { rewrite Hcalls. simpl. by rewrite <- !app_assoc. }
    by exists mid, r.
Qed.

Lemma blockCalls_app (l1 l2 : list Call) :
  blockCalls (l1 ++ l2) = blockCalls l1 ++ blockCalls l2.
Proof. apply omap_app. Qed.

Lemma blockCalls_appliedCalls done :
  blockCalls (appliedCalls done) = appliedCalls done.
Proof.
  induction done as [|[b answer] done IH]; [done|]. simpl.
  unfold blockCalls in *. simpl. by rewrite IH.
Qed.

(** The log of one run of the pull loop, call by call: the blocks applied,
    each verified, written and passed to the callback before the next one is
    looked at, then the calls on the block the loop aborted on, if any. *)
Lemma pullLoop_order cb (blocks : list types.Block) e : ∀ s l f s' r,
  pullLoop cb s l f blocks e = (s', r) →
  ∃ done tail,
    calls s' = calls s ++ appliedCalls done ++ tail ∧
    appliedOn (blockchain s) done.*1 ∧
    (done.*1 ++ verifyCalls tail) `prefix_of` nonzero blocks ∧
    ((tail = [] ∧ done.*1 = nonzero blocks) ∨
     (∃ b, tail = [CallVerifyFinalizedBlock b] ∧
           is_Some (VerifyFinalizedBlock
                      (writeAll (blockchain s) done.*1) b)) ∨
     (∃ b, tail = [CallVerifyFinalizedBlock b; CallWriteBlock b] ∧
           VerifyFinalizedBlock (writeAll (blockchain s) done.*1) b = None ∧
           is_Some (WriteBlock (writeAll (blockchain s) done.*1) b).2)).
Proof.
  induction blocks as [|b blocks IH]; intros s l f s' r; simpl.
  - intros Hrun. exists [], []. rewrite app_nil_r.
    assert (s' = s) as -> by (destruct e; by injection Hrun).
    split; [done|]. split; [done|]. split; [done|]. by left.
  - unfold nonzero. rewrite filter_cons.
    destruct (N.eqb_spec (types.Block_Number b) 0) as [Hz|Hnz].
    { rewrite decide_False by (intros ?; done). apply IH. }
    rewrite decide_True by done.
    destruct (VerifyFinalizedBlock _ b) as [verr|] eqn:Hv.
    { intros [= <- _]. exists [], [CallVerifyFinalizedBlock b]. simpl.
      split; [done|]. split; [done|].
      split; [apply prefix_cons, prefix_nil|].
      right; left. exists b. split; [done|]. by rewrite Hv. }
    destruct (WriteBlock _ b) as [c1 [werr|]] eqn:Hw.
    { intros [= <- _].
      exists [], [CallVerifyFinalizedBlock b; CallWriteBlock b]. simpl.
      split; [by rewrite <- app_assoc|]. split; [done|].
      split; [apply prefix_cons, prefix_nil|].
      right; right. exists b. split; [done|]. split; [done|]. by rewrite Hw. }
    intros Hrun.
    apply IH in Hrun as (done & tail & Hcalls & Hon & Hpre & Hend).
    simpl in Hcalls, Hon, Hend.
    exists ((b, cb (calls s ++ [CallVerifyFinalizedBlock b] ++ [CallWriteBlock b]) b)
              :: done), tail.
    split.
    { rewrite Hcalls. simpl. by rewrite <- !app_assoc. }
    simpl. rewrite Hw. simpl.
    split; [done|]. split; [by apply prefix_cons|].
    destruct Hend as [[-> Heq]|Hend]; [left|by right].
    split; [done|]. unfold nonzero in Heq. by rewrite <- Heq.
Qed.

(** X2. The calls on blocks that one call of [bulkSyncWithPeer] logs are, in
    this order: for each block applied its verification, then its write,
    then the callback on it, and only then the calls on the next block; at
    the end, when the loop aborted, the verification of one more block that
    failed, or its verification and the write that failed. No block is
    written before it verified on the chain as the blocks before it left it,
    and none is passed to the callback before its write returned no error.
    The blocks come in the order of the stream, those of height 0 left out,
    all of them unless the loop aborted. The chain the call leaves is the one
    its [WriteBlock] calls made, in order: nothing is undone. *)
Theorem bulkSyncWithPeer_verifies_then_writes s p cb :
  ∃ new done tail,
    calls (bulkSyncWithPeer s p cb).1 = calls s ++ new ∧
    blockCalls new = appliedCalls done ++ tail ∧
    appliedOn (blockchain s) done.*1 ∧
    (tail = [] ∨
     (∃ b, tail = [CallVerifyFinalizedBlock b] ∧
           is_Some (VerifyFinalizedBlock
                      (writeAll (blockchain s) done.*1) b)) ∨
     (∃ b, tail = [CallVerifyFinalizedBlock b; CallWriteBlock b] ∧
           VerifyFinalizedBlock (writeAll (blockchain s) done.*1) b = None ∧
           is_Some (WriteBlock (writeAll (blockchain s) done.*1) b).2)) ∧
    (∀ hd k1 st,
       Header (blockchain s) = Some hd →
       GetBlocks (syncPeerClient s) p (uint64_add (types.Number hd) 1)
                 (blockTimeout s) = (k1, inr st) →
       (done.*1 ++ verifyCalls tail) `prefix_of` nonzero (delivered st) ∧
       (tail = [] → done.*1 = nonzero (delivered st))) ∧
    blockchain (bulkSyncWithPeer s p cb).1
      = writeAll (blockchain s) (writeCalls new).
Proof.
  destruct (bulkSyncWithPeer_cases s p cb)
    as [[Hh Hr]|[(hd & k1 & err & Hh & Hg & Hr)
                |(hd & k1 & st & s2 & r & Hh & Hg & Hrun & Hr)]];
    rewrite Hr; simpl.
  - exists [], [], []. rewrite app_nil_r.
    split; [done|]. split; [done|]. split; [done|]. split; [by left|].
    split; [|done]. intros hd k1 st Hh'. congruence.
  - exists [CallGetBlocks p (uint64_add (types.Number hd) 1) (blockTimeout s)],
           [], [].
    split; [done|]. split; [done|]. split; [done|]. split; [by left|].
    split; [|done]. intros hd' k1' st' Hh' Hg'. congruence.
  - pose proof Hrun as Htrace.
    apply pullLoop_trace in Htrace as (mid & Hcalls & _ & _ & _ & _ & Hchain & _).
    apply pullLoop_order in Hrun as (done & tail & Hcalls' & Hon & Hpre & Hend).
    simpl in Hcalls, Hcalls', Hon, Hend, Hchain.
    assert (mid = appliedCalls done ++ tail) as Hmid.
    { rewrite Hcalls in Hcalls'. by apply app_inv_head in Hcalls'. }
    exists (CallGetBlocks p (uint64_add (types.Number hd) 1) (blockTimeout s)
              :: mid ++ [CallCloseStream p]), done, tail.
    split. { rewrite Hcalls. simpl. by rewrite <- !app_assoc. }
    split.
    { rewrite Hmid. unfold blockCalls at 1. simpl.
      fold (blockCalls ((appliedCalls done ++ tail) ++ [CallCloseStream p])).
      rewrite !blockCalls_app, blockCalls_appliedCalls.
      unfold blockCalls. simpl. rewrite app_nil_r.
      destruct Hend as [[-> _]|[(b & -> & _)|(b & -> & _)]]; done. }
    split; [done|].
    split. { destruct Hend as [[-> _]|[?|?]]; [by left|by right; left|by right; right]. }
    split.
    + intros hd' k1' st' Hh' Hg'. assert (st' = st) as -> by congruence.
      split; [done|]. intros ->.
      destruct Hend as [[_ ?]|[(b & ? & _)|(b & ? & _)]]; done.
    + rewrite Hchain. unfold writeCalls. simpl. by rewrite omap_app, app_nil_r.
Qed.

(** *** BulkSync *)

(** What one pass through the body of the loop of [BulkSync] logs. *)
Lemma bulkSyncIteration_trace cb s l skipMap s1 step :
  bulkSyncIteration cb s l skipMap = (s1, step) →
  ∃ new targets,
    calls s1 = calls s ++ new ∧
    blockchain s1 = writeAll (blockchain s) (writeCalls new) ∧
    peerMap s1 = peerMap s ∧
    progressionCalls new = CallUpdateHighestProgression <$> targets ∧
    (pulledPeers new = [] ∨
     ∃ p, BestPeer (peerMap s) skipMap = Some p ∧ pulledPeers new = [ID p]) ∧
    (∀ l1 skipMap1, step = BulkNext l1 skipMap1 →
       ∃ p, BestPeer (peerMap s) skipMap = Some p ∧
            pulledPeers new = [ID p] ∧
            skipMap1 = <[ID p := true]> skipMap).
Proof.
  unfold bulkSyncIteration.
  destruct (BestPeer (peerMap s) skipMap) as [p|] eqn:Hbest.
  2:{ intros [= <- <-]. exists [], []. rewrite app_nil_r.
      repeat split; auto. done. }
  destruct (Number p <=? l).
  { intros [= <- <-]. exists [], []. rewrite app_nil_r.
    repeat split; auto. done. }
  destruct (bulkSyncWithPeer _ (ID p) cb) as [s2 out] eqn:Hcall.
  pose proof (bulkSyncWithPeer_frame _ _ _ _ _ Hcall) as [Hpm _].
  apply bulkSyncWithPeer_trace in Hcall as (new & Hcalls & Hchain & Hpr & Hout).
  simpl in Hcalls, Hchain, Hpm. rewrite <- app_assoc in Hcalls.
  assert (calls s2 = calls s ++ CallUpdateHighestProgression (Number p) :: new
          ∧ blockchain s2
            = writeAll (blockchain s)
                (writeCalls (CallUpdateHighestProgression (Number p) :: new))
          ∧ progressionCalls (CallUpdateHighestProgression (Number p) :: new)
            = CallUpdateHighestProgression <$> [Number p])
    as (Hcalls' & Hchain' & Hpr').
  { split; [done|]. split; [done|]. simpl. by rewrite Hpr. }
  destruct out as [[[n t] err]|].
  - destruct Hout as [Hpp _].
    destruct (match err with None => _ | Some _ => _ end); intros [= <- <-];
      exists (CallUpdateHighestProgression (Number p) :: new), [Number p];
      (repeat split; [done..| |]); [right; by exists p|done
                                   |right; by exists p|].
    intros l1 skipMap1 [= <- <-]. by exists p.
  - destruct Hout as [-> _]. intros [= <- <-].
    exists [CallUpdateHighestProgression (Number p)], [Number p].
    repeat split; [done..|by left|done].
Qed.

(** What the loop of [BulkSync] logs. *)
Lemma bulkSyncLoop_trace cb fuel : ∀ s l skipMap s' skipMap' exit,
  bulkSyncLoop fuel cb s l skipMap = Some (s', skipMap', exit) →
  ∃ new targets,
    calls s' = calls s ++ new ∧
    blockchain s' = writeAll (blockchain s) (writeCalls new) ∧
    peerMap s' = peerMap s ∧
    progressionCalls new = CallUpdateHighestProgression <$> targets ∧
    NoDup (pulledPeers new) ∧
    Forall (λ id, skipped skipMap id = false ∧
                  ∃ k q, peerMap s !! k = Some q ∧ ID q = id)
           (pulledPeers new) ∧
    (length (pulledPeers new) ≤ length (candidates (peerMap s) skipMap))%nat.
Proof.
  induction fuel as [|fuel IH]; intros s l skipMap s' skipMap' exit; [done|].
  simpl.
  destruct (bulkSyncIteration cb s l skipMap) as [s1 step] eqn:Hit.
  apply bulkSyncIteration_trace
    in Hit as (new & targets & Hcalls & Hchain & Hpm & Hpr & Hpulled & Hnext).
  assert (∀ p, BestPeer (peerMap s) skipMap = Some p →
               p ∈ candidates (peerMap s) skipMap ∧
               skipped skipMap (ID p) = false ∧
               ∃ k q, peerMap s !! k = Some q ∧ ID q = ID p) as Hcand.
  { intros p Hbest. apply BestPeer_candidate in Hbest as Hin.
    split; [done|]. apply elem_of_candidates in Hin as [Hskip [k Hk]].
    split; [done|]. by exists k, p. }
  destruct step as [l1 skipMap1|exit1].
  - destruct (Hnext l1 skipMap1 eq_refl) as (p & Hbest & Hpp & ->).
    destruct (Hcand p Hbest) as (Hin & Hskip & Htable).
    intros Hloop.
    apply IH in Hloop
      as (new' & targets' & Hcalls' & Hchain' & Hpm' & Hpr' & Hnd & Hall & Hlen).
    exists (new ++ new'), (targets ++ targets').
    split; [by rewrite Hcalls', Hcalls, app_assoc|].
    split; [by rewrite Hchain', Hchain, writeCalls_app, writeAll_app|].
    split; [by rewrite Hpm', Hpm|].
    split; [by rewrite progressionCalls_app, Hpr, Hpr', fmap_app|].
    rewrite pulledPeers_app, Hpp. simpl.
    assert (Forall (λ id, ID p ≠ id ∧ skipped skipMap id = false ∧
                          ∃ k q, peerMap s !! k = Some q ∧ ID q = id)
                   (pulledPeers new')) as Hall'.
    { eapply Forall_impl; [exact Hall|]. intros id [Hid Hq]. simpl in Hid.
      rewrite skipped_insert in Hid. rewrite Hpm in Hq.
      by case_decide. }
    split.
    { constructor; [|done]. intros Hin'.
      rewrite Forall_forall in Hall'. by destruct (Hall' _ Hin') as [? _]. }
    split.
    { constructor; [done|]. eapply Forall_impl; [exact Hall'|]. by intros ? [_ ?]. }
    rewrite Hpm in Hlen.
    pose proof (candidates_skip_lt _ _ _ Hin). lia.
  - intros [= <- <- <-]. exists new, targets.
    split; [done|]. split; [done|]. split; [done|]. split; [done|].
    destruct Hpulled as [->|(p & Hbest & ->)].
    + repeat split; [constructor|constructor|simpl; lia].
    + destruct (Hcand p Hbest) as (Hin & Hskip & Htable).
      split; [apply NoDup_singleton|]. split; [by repeat constructor|].
      simpl. destruct (candidates (peerMap s) skipMap); [|simpl; lia].
      by apply elem_of_nil in Hin.
Qed.

Lemma bulkSyncLoop_extends cb fuel s l skipMap s' skipMap' exit :
  bulkSyncLoop fuel cb s l skipMap = Some (s', skipMap', exit) →
  ∃ new, calls s' = calls s ++ new.
Proof.
  intros Hloop. apply bulkSyncLoop_trace in Hloop as (new & _ & Hcalls & _).
  by exists new.
Qed.

(** [BulkSync] is its loop between the start and the stop of the
    progression. *)
Lemma BulkSync_unfold s cb :
  ∃ s2 skipMap2 exit,
    bulkSyncLoop (S (size (peerMap s))) cb (started s) (updateLocalLatest s 0) ∅
      = Some (s2, skipMap2, exit) ∧
    BulkSync s cb
      = Some (record CallStopProgression s2,
              match exit with ExitPanic => Panics | _ => Returns None end).
Proof.
  destruct (BulkSync_is_Some s cb) as [r Hret]. unfold BulkSync in *.
  fold (started s) in *.
  destruct (bulkSyncLoop _ _ _ _ _) as [[[s2 skipMap2] exit]|]; [|done].
  by exists s2, skipMap2, exit.
Qed.

(** X3. Every run of [BulkSync] brackets its work between the progression
    calls: it first subscribes to the chain events and starts the
    progression at the local height plus one, it updates the target once per
    peer it turns to, and its last call, also when the run ends in a panic,
    is [StopProgression]; the progression is started and stopped once. *)
Theorem BulkSync_brackets_progression s cb :
  ∃ s' out mid targets,
    BulkSync s cb = Some (s', out) ∧
    calls s' = calls s ++
               [CallSubscribeEvents;
                CallStartProgression (uint64_add (updateLocalLatest s 0) 1)]
               ++ mid ++ [CallStopProgression] ∧
    progressionCalls mid = CallUpdateHighestProgression <$> targets.
Proof.
  destruct (BulkSync_unfold s cb) as (s2 & skipMap2 & exit & Hloop & Hret).
  apply bulkSyncLoop_trace in Hloop as (mid & targets & Hcalls & _ & _ & Hpr & _).
  do 2 eexists. exists mid, targets.
  split; [exact Hret|]. split; [|done].
  simpl. rewrite Hcalls. simpl. by rewrite <- !app_assoc.
Qed.

(** X4. During one [BulkSync] no peer is asked for blocks twice: the peers
    [GetBlocks] is called for are pairwise distinct, each is a peer of the
    table, and there are at most as many calls as the table has peers. The
    run leaves the table as it is, and the chain as its [WriteBlock] calls
    made it. *)
Theorem BulkSync_pulls_each_peer_once s cb :
  ∃ s' out new,
    BulkSync s cb = Some (s', out) ∧
    calls s' = calls s ++ new ∧
    NoDup (pulledPeers new) ∧
    (∀ id, id ∈ pulledPeers new → ∃ k q, peerMap s !! k = Some q ∧ ID q = id) ∧
    (length (pulledPeers new) ≤ size (peerMap s))%nat ∧
    peerMap s' = peerMap s ∧
    blockchain s' = writeAll (blockchain s) (writeCalls new).
Proof.
  destruct (BulkSync_unfold s cb) as (s2 & skipMap2 & exit & Hloop & Hret).
  apply bulkSyncLoop_trace
    in Hloop as (mid & targets & Hcalls & Hchain & Hpm & _ & Hnd & Hall & Hlen).
  do 2 eexists.
  exists ([CallSubscribeEvents;
           CallStartProgression (uint64_add (updateLocalLatest s 0) 1)]
          ++ mid ++ [CallStopProgression]).
  split; [exact Hret|].
  split; [simpl; rewrite Hcalls; simpl; by rewrite <- !app_assoc|].
  assert (pulledPeers ([CallSubscribeEvents;
                        CallStartProgression (uint64_add (updateLocalLatest s 0) 1)]
                       ++ mid ++ [CallStopProgression]) = pulledPeers mid) as ->.
  { simpl. by rewrite pulledPeers_app, app_nil_r. }
  split; [done|]. split.
  { intros id Hin. rewrite Forall_forall in Hall.
    by destruct (Hall _ Hin) as [_ ?]. }
  split.
  { simpl in Hlen. pose proof (candidates_length (peerMap s) ∅). lia. }
  split; [done|]. simpl. rewrite Hchain. simpl.
  by rewrite !writeCalls_app, app_nil_r.
Qed.

Lemma bulkSyncLoop_first_pull cb fuel s l skipMap s' skipMap' exit p hd :
  bulkSyncLoop (S fuel) cb s l skipMap = Some (s', skipMap', exit) →
  BestPeer (peerMap s) skipMap = Some p →
  l < Number p →
  Header (blockchain s) = Some hd →
  ∃ more,
    calls s' = calls s ++
               CallUpdateHighestProgression (Number p)
               :: CallGetBlocks (ID p) (uint64_add (types.Number hd) 1)
                                (blockTimeout s)
               :: more.
Proof.
  intros Hloop Hbest Hlt Hh. simpl in Hloop. unfold bulkSyncIteration in Hloop.
  rewrite Hbest in Hloop.
  destruct (N.leb_spec (Number p) l); [lia|].
  destruct (bulkSyncWithPeer _ (ID p) cb) as [s2 out] eqn:Hcall.
  apply bulkSyncWithPeer_trace in Hcall as (new & Hcalls & _ & _ & Hout).
  destruct out as [[[n t] err]|]; [|destruct Hout as [_ Hnil]; simpl in Hnil;
                                    congruence].
  destruct Hout as (_ & hd' & more & Hh' & ->). simpl in Hh'.
  assert (hd' = hd) as -> by congruence.
  simpl in Hcalls. rewrite <- app_assoc in Hcalls. simpl in Hcalls.
  destruct (match err with None => _ | Some _ => _ end).
  - injection Hloop as <- _ _. by exists more.
  - apply bulkSyncLoop_extends in Hloop as [new' ->]. rewrite Hcalls.
    exists (more ++ new'). by rewrite <- app_assoc.
Qed.

(** X5. [HasSyncPeer] and [BulkSync] decide alike. When [HasSyncPeer]
    returns false, [BulkSync] asks no peer for blocks: it starts and stops
    the progression and returns nil. When it returns true, the first thing
    [BulkSync] does after starting the progression is to set the target to
    the height of the best peer and to ask that peer for the blocks from the
    local height plus one. *)
Theorem HasSyncPeer_decides_BulkSync s cb :
  (HasSyncPeer s = Returns false →
     BulkSync s cb = Some (record CallStopProgression (started s), Returns None)) ∧
  (HasSyncPeer s = Returns true →
     ∃ hd p s' out more,
       Header (blockchain s) = Some hd ∧
       BestPeer (peerMap s) ∅ = Some p ∧
       types.Number hd < Number p ∧
       BulkSync s cb = Some (s', out) ∧
       calls s' = calls (started s) ++
                  CallUpdateHighestProgression (Number p)
                  :: CallGetBlocks (ID p) (uint64_add (types.Number hd) 1)
                                   (blockTimeout s)
                  :: more).
Proof.
  unfold HasSyncPeer. split.
  - intros Hhas. unfold BulkSync. fold (started s). simpl.
    unfold bulkSyncIteration. simpl.
    destruct (BestPeer (peerMap s) ∅) as [p|]; [|done].
    unfold updateLocalLatest.
    destruct (Header (blockchain s)) as [hd|]; [|done].
    injection Hhas as Hlt. apply N.ltb_ge in Hlt.
    by destruct (N.leb_spec (Number p) (types.Number hd)); [|lia].
  - intros Hhas.
    destruct (BestPeer (peerMap s) ∅) as [p|] eqn:Hbest; [|done].
    destruct (Header (blockchain s)) as [hd|] eqn:Hh; [|done].
    injection Hhas as Hlt. apply N.ltb_lt in Hlt.
    destruct (BulkSync_unfold s cb) as (s2 & skipMap2 & exit & Hloop & Hret).
    assert (updateLocalLatest s 0 = types.Number hd) as Hl
      by (unfold updateLocalLatest; by rewrite Hh).
    rewrite Hl in Hloop.
    apply (bulkSyncLoop_first_pull _ _ _ _ _ _ _ _ p hd)
      in Hloop as [more Hcalls]; [|done..].
    exists hd, p. do 2 eexists. exists (more ++ [CallStopProgression]).
    split; [done|]. split; [done|]. split; [done|]. split; [exact Hret|].
    simpl. simpl in Hcalls. rewrite Hcalls. by rewrite <- !app_assoc.
Qed.

(** X7. When the pull from the best peer returns an error or stops below
    the height the peer advertised, and no other peer is left to turn to,
    [BulkSync] returns nil right after that pull: the peer is on the skip
    list, and the log and the chain are as the pull left them, so what the
    pull applied stays applied. *)
Theorem BulkSync_keeps_partial_progress s cb p s2 n t err :
  BestPeer (peerMap s) ∅ = Some p →
  updateLocalLatest s 0 < Number p →
  bulkSyncWithPeer (record (CallUpdateHighestProgression (Number p)) (started s))
                   (ID p) cb = (s2, Returns (n, t, err)) →
  err ≠ None ∨ n < Number p →
  BestPeer (peerMap s) (<[ID p := true]> ∅) = None →
  BulkSync s cb = Some (record CallStopProgression s2, Returns None) ∧
  ∀ fuel,
    bulkSyncLoop (S (S fuel)) cb (started s) (updateLocalLatest s 0) ∅
      = Some (s2, <[ID p := true]> ∅, ExitNoCandidate).
Proof.
  intros Hbest Hlt Hcall Hfail Hnone.
  pose proof (bulkSyncWithPeer_frame _ _ _ _ _ Hcall) as [Hpm _].
  simpl in Hpm.
  assert (∀ fuel,
            bulkSyncLoop (S (S fuel)) cb (started s) (updateLocalLatest s 0) ∅
            = Some (s2, <[ID p := true]> ∅, ExitNoCandidate)) as Hloop.
  { intros fuel. simpl. unfold bulkSyncIteration at 1. simpl. rewrite Hbest.
    destruct (N.leb_spec (Number p) (updateLocalLatest s 0)); [lia|].
    rewrite Hcall.
    assert (match err with
            | Some _ => false
            | None => Number p <=? n
            end = false) as ->.
    { destruct err; [done|]. destruct Hfail as [|Hn]; [done|].
      by destruct (N.leb_spec (Number p) n); [lia|]. }
    unfold bulkSyncIteration. by rewrite Hpm, Hnone. }
  split; [|exact Hloop].
  unfold BulkSync. fold (started s).
  pose proof (BestPeer_candidate _ _ _ Hbest) as Hin.
  pose proof (candidates_length (peerMap s) ∅) as Hlen.
  destruct (size (peerMap s)) as [|k].
  { destruct (candidates (peerMap s) ∅); [by apply elem_of_nil in Hin|].
    simpl in Hlen. lia. }
  by rewrite Hloop.
Qed.

(** X9. With the head known, [HasSyncPeer] returns true exactly when some
    peer of the table advertises a height above the local one, and false
    exactly when none does; with an empty table it returns false whether
    the head is known or not. *)
Theorem HasSyncPeer_iff_peer_ahead s :
  (peerMap s = ∅ → HasSyncPeer s = Returns false) ∧
  (∀ hd, Header (blockchain s) = Some hd →
     (HasSyncPeer s = Returns true ↔
      ∃ k q, peerMap s !! k = Some q ∧ types.Number hd < Number q) ∧
     (HasSyncPeer s = Returns false ↔
      ∀ k q, peerMap s !! k = Some q → Number q ≤ types.Number hd)).
Proof.
  unfold HasSyncPeer. split.
  { intros ->. by assert (BestPeer (∅ : gmap string NoForkPeer) ∅ = None) as ->. }
  intros hd ->.
  assert (∀ k q, peerMap s !! k = Some q →
                 ∃ p, BestPeer (peerMap s) ∅ = Some p ∧ Number q ≤ Number p)
    as Hsome.
  { intros k q Hq. apply BestPeer_is_Some, elem_of_candidates.
    split; [apply skipped_empty|by exists k]. }
  destruct (BestPeer (peerMap s) ∅) as [p|] eqn:Hbest.
  - apply BestPeer_candidate, elem_of_candidates in Hbest as Hin.
    destruct Hin as [_ [kp Hkp]].
    destruct (N.ltb_spec (types.Number hd) (Number p)) as [Hlt|Hge]; split.
    + split; [intros _; by exists kp, p|done].
    + split; [done|]. intros Hall. specialize (Hall kp p Hkp). lia.
    + split; [done|]. intros (k & q & Hq & Hlt).
      destruct (Hsome k q Hq) as (p' & [= <-] & Hle). lia.
    + split; [|done]. intros _ k q Hq.
      destruct (Hsome k q Hq) as (p' & [= <-] & Hle). lia.
  - split.
    + split; [done|]. intros (k & q & Hq & _).
      by destruct (Hsome k q Hq) as (p' & [=] & _).
    + split; [|done]. intros _ k q Hq.
      by destruct (Hsome k q Hq) as (p' & [=] & _).
Qed.

(** *** WatchSync *)

(** What one pass through the body of the loop of [WatchSync] logs. *)
Lemma watchSyncIteration_trace cb s l skipMap s1 step :
  watchSyncIteration cb s l skipMap = (s1, step) →
  ∃ new,
    calls s1 = calls s ++ new ∧
    blockchain s1 = writeAll (blockchain s) (writeCalls new) ∧
    progressionCalls new = [] ∧
    (length (pulledPeers new) ≤ 1)%nat.
Proof.
  unfold watchSyncIteration.
  assert (∃ new, calls s = calls s ++ new ∧
                 blockchain s = writeAll (blockchain s) (writeCalls new) ∧
                 progressionCalls new = [] ∧
                 (length (pulledPeers new) ≤ 1)%nat) as Hidle.
  { exists []. rewrite app_nil_r. repeat split. simpl. lia. }
  destruct (BestPeer (peerMap s) skipMap) as [p|]; [|by intros [= <- _]].
  destruct (Number p <=? updateLocalLatest s l); [by intros [= <- _]|].
  destruct (bulkSyncWithPeer s (ID p) cb) as [s2 out] eqn:Hcall.
  apply bulkSyncWithPeer_trace in Hcall as (new & Hcalls & Hchain & Hpr & Hout).
  assert (s1 = s2 → ∃ new, calls s1 = calls s ++ new ∧
                 blockchain s1 = writeAll (blockchain s) (writeCalls new) ∧
                 progressionCalls new = [] ∧
                 (length (pulledPeers new) ≤ 1)%nat) as Hpull.
  { intros ->. exists new. repeat split; [done..|].
    destruct out; [destruct Hout as [-> _]|destruct Hout as [-> _]]; simpl; lia. }
  destruct out as [[[n t] err]|]; [|intros [= <- _]; by apply Hpull].
  destruct (match err with Some _ => _ | None => _ end);
    [|destruct t]; intros [= <- _]; by apply Hpull.
Qed.

(** X6. Over any sequence of wake-ups, [WatchSync] asks at most one peer for
    blocks per wake-up, calls the progression tracker not at all (neither
    start, target update nor stop), and leaves the chain as its [WriteBlock]
    calls made it. *)
Theorem WatchSync_pulls_once_per_wakeup s cb (wakeups : list (gmap string NoForkPeer)) :
  ∃ new,
    calls (WatchSync s cb wakeups).1 = calls s ++ new ∧
    (length (pulledPeers new) ≤ length wakeups)%nat ∧
    progressionCalls new = [] ∧
    blockchain (WatchSync s cb wakeups).1 = writeAll (blockchain s) (writeCalls new).
Proof.
  unfold WatchSync.
  destruct (Header (blockchain s)) as [hd|].
  2:{ exists []. rewrite app_nil_r. repeat split. simpl. lia. }
  generalize (types.Number hd) (∅ : gmap string bool). clear hd.
  revert s. induction wakeups as [|table later IH]; intros s l skipMap; simpl.
  { exists []. rewrite app_nil_r. by repeat split. }
  destruct (watchSyncIteration cb (set_peerMap table s) l skipMap)
    as [s1 step] eqn:Hit.
  apply watchSyncIteration_trace in Hit as (new & Hcalls & Hchain & Hpr & Hlen).
  simpl in Hcalls, Hchain.
  destruct step as [l1 skipMap1| |].
  - destruct (IH s1 l1 skipMap1) as (new' & Hcalls' & Hlen' & Hpr' & Hchain').
    exists (new ++ new').
    split; [by rewrite Hcalls', Hcalls, app_assoc|].
    split; [rewrite pulledPeers_app, length_app; lia|].
    split; [by rewrite progressionCalls_app, Hpr, Hpr'|].
    by rewrite Hchain', Hchain, writeCalls_app, writeAll_app.
  - exists new. simpl. repeat split; [done|lia|done..].
  - exists new. simpl. repeat split; [done|lia|done..].
Qed.

End Traces.

(** *** Close *)

(** X8. [Close] closes the channel [newStatusCh] before anything else, so a
    second [Close] panics on it without calling the service or the client.
    When the service fails to close, [Close] returns its error and the
    client is not closed; as any later [Close] panics, [Close] never closes
    that client. When the service closes, the client is closed after it and
    [Close] returns nil. *)
Theorem Close_only_once {K V : Type} `{!Closers K V} (s : closing K V) :
  (newStatusChClosed s = true → Close s = (s, Panics)) ∧
  (newStatusChClosed s = false →
     ∃ s1,
       Close s = (s1, Returns (service_Close (closingService s)).2) ∧
       Close s1 = (s1, Panics) ∧
       match (service_Close (closingService s)).2 with
       | Some _ =>
           closingClient s1 = closingClient s ∧
           closeCalls s1 = closeCalls s ++ [CallCloseNewStatusCh; CallServiceClose]
       | None =>
           closingClient s1 = client_Close (closingClient s) ∧
           closeCalls s1 = closeCalls s ++ [CallCloseNewStatusCh; CallServiceClose;
                                            CallClientClose]
       end).
Proof.
  unfold Close. split; [by intros ->|]. intros ->.
  destruct (service_Close (closingService s)) as [v [e|]]; simpl;
    eexists; (split; [reflexivity|]); simpl; (split; [reflexivity|]);
    split; try reflexivity.
  by rewrite <- app_assoc.
Qed.

(** A service that fails to close once: the first [Close] returns its
    error, the second panics, and the client was never closed. *)
Example Close_twice :
  (Close (mkClosing 0%nat 1%nat false [])).2
    = Returns (Some (errors_New "service busy")) ∧
  (Close (Close (mkClosing 0%nat 1%nat false [])).1).2 = Panics ∧
  closingClient (Close (Close (mkClosing 0%nat 1%nat false [])).1).1 = 0%nat.
Proof. vm_compute. by repeat split. Qed.

(** The only candidate stalls after blocks 3 and 4. *)
Lemma BulkSync_keeps_partial_progress_witness :
  updateLocalLatest singlePeerStalls 0 < Number (mkPeer "p" 5) ∧
  ∃ s', BulkSync singlePeerStalls neverTerminate = Some (s', Returns None) ∧
        written (blockchain s') = [block 3; block 4] ∧
        Header (blockchain s') = Some (types.mkHeader 4 4).
Proof.
  split; [reflexivity|].
  destruct (BulkSync_keeps_partial_progress singlePeerStalls neverTerminate
              (mkPeer "p" 5)
              (bulkSyncWithPeer
                 (record (CallUpdateHighestProgression 5) (started singlePeerStalls))
                 "p" neverTerminate).1
              4 false (Some errTimeout)) as [Hret _].
  - vm_compute. reflexivity.
  - reflexivity.
  - vm_compute. reflexivity.
  - by left.
  - vm_compute. reflexivity.
  - eexists. split; [exact Hret|]. split; vm_compute; reflexivity.
Defined.
